(** * UnlockIt: a shallow embedding of the extension's scripts

    The repository is a browser extension made of three scripts: a content
    script ([content.js]), a background service worker ([background.js], in
    two revisions) and the popup ([popup.js]).  This development embeds the
    parts of those scripts that carry their logic -- settings validation,
    the storage wrappers, the error wrapper, site dispatch, debouncing, the
    mutation queue, the notified-sites list and the popup toggles -- and
    proves their properties.

    Layout: the models come first (one module per script, after the modules
    for JavaScript values, effects and the host API), then the theorems. *)

From stdpp Require Import gmap strings list fin_maps pretty.
From Stdlib Require Import ZArith Ascii.

#[local] Set Warnings "-register-all".
#[local] Open Scope string_scope.
#[local] Open Scope list_scope.
#[local] Open Scope nat_scope.

(* ===================================================================== *)
(** * JavaScript values                                                   *)
(* ===================================================================== *)

Module JS.

(** The data that [chrome.storage] and extension messages can carry, plus
    [undefined] (what reading an absent key gives).  Numbers are only ever
    tested for truthiness here, never computed with, and are kept as
    integers.  Strings are sequences of 8-bit characters; the hostnames,
    tag names and keys of the scripts are ASCII. *)
Inductive value : Type :=
| VUndefined
| VNull
| VBool (b : bool)
| VNum (n : Z)
| VStr (s : string)
| VArr (items : list value)
| VObj (fields : gmap string value).

(** What a property read can produce: data, or one of the realm's built-in
    objects found on the prototype chain (a method such as
    [Object.prototype.toString], or the prototype itself for [__proto__]). *)
Inductive jsval : Type :=
| Data (v : value)
| Builtin (path : string).

(** [ToBoolean]. *)
Definition truthy (v : value) : bool :=
  match v with
  | VUndefined | VNull => false
  | VBool b => b
  | VNum n => negb (n =? 0)%Z
  | VStr s => negb (String.eqb s EmptyString)
  | VArr _ | VObj _ => true
  end.

Definition truthy_js (x : jsval) : bool :=
  match x with
  | Data v => truthy v
  | Builtin _ => true
  end.

(** The [typeof] operator. *)
Definition typeof (v : value) : string :=
  match v with
  | VUndefined => "undefined"
  | VNull => "object"
  | VBool _ => "boolean"
  | VNum _ => "number"
  | VStr _ => "string"
  | VArr _ | VObj _ => "object"
  end.

(** Names every ordinary object inherits from [Object.prototype]. *)
Definition Object_prototype : list string :=
  [ "constructor"; "__defineGetter__"; "__defineSetter__"; "hasOwnProperty";
    "__lookupGetter__"; "__lookupSetter__"; "isPrototypeOf";
    "propertyIsEnumerable"; "toString"; "valueOf"; "__proto__";
    "toLocaleString" ].

(** Names an array inherits from [Array.prototype]. *)
Definition Array_prototype : list string :=
  [ "constructor"; "at"; "concat"; "copyWithin"; "fill"; "find"; "findIndex";
    "findLast"; "findLastIndex"; "lastIndexOf"; "pop"; "push"; "reverse";
    "shift"; "unshift"; "slice"; "sort"; "splice"; "includes"; "indexOf";
    "join"; "keys"; "entries"; "values"; "forEach"; "filter"; "flat";
    "flatMap"; "map"; "every"; "some"; "reduce"; "reduceRight";
    "toLocaleString"; "toString"; "toReversed"; "toSorted"; "toSpliced";
    "with" ].

(** [o[k]] on a plain object: the own property if there is one, otherwise
    whatever the prototype chain has under that name, otherwise
    [undefined]. *)
Definition get_prop_obj (o : gmap string value) (k : string) : jsval :=
  match o !! k with
  | Some v => Data v
  | None =>
      if bool_decide (k ∈ Object_prototype)
      then Builtin ("Object.prototype." +:+ k)
      else Data VUndefined
  end.

(** An array index as a property key: a decimal numeral without leading
    zeros. *)
Definition digit_of (c : ascii) : option nat :=
  let n := nat_of_ascii c in
  if (48 <=? n)%nat && (n <=? 57)%nat then Some (n - 48)%nat else None.

Fixpoint parse_digits (s : string) (acc : nat) : option nat :=
  match s with
  | EmptyString => Some acc
  | String c s' =>
      match digit_of c with
      | Some d => parse_digits s' (10 * acc + d)%nat
      | None => None
      end
  end.

Definition array_index (k : string) : option nat :=
  match k with
  | EmptyString => None
  | String "0"%char EmptyString => Some 0%nat
  | String "0"%char _ => None
  | _ => parse_digits k 0
  end.

(** [a[k]] on an array: [length], an element under its index, or what
    [Array.prototype] and [Object.prototype] have under that name. *)
Definition get_prop_arr (l : list value) (k : string) : jsval :=
  if String.eqb k "length" then Data (VNum (Z.of_nat (length l)))
  else
    match array_index k ≫= (λ i, l !! i) with
    | Some v => Data v
    | None =>
        if bool_decide (k ∈ Array_prototype)
        then Builtin ("Array.prototype." +:+ k)
        else if bool_decide (k ∈ Object_prototype)
        then Builtin ("Object.prototype." +:+ k)
        else Data VUndefined
    end.

(** [v[k]] for a receiver that is an object.  The scripts read the
    properties of a value of unknown shape only behind the guard
    [!v || typeof v !== 'object'], which lets through ordinary objects and
    arrays and nothing else; reads on other receivers (boxed primitives,
    and [null] and [undefined], which throw) are not modelled. *)
Definition get_prop (v : value) (k : string) : option jsval :=
  match v with
  | VObj o => Some (get_prop_obj o k)
  | VArr l => Some (get_prop_arr l k)
  | _ => None
  end.

(** The statement
    [if (typeof settings[key] === 'boolean') validated[key] = settings[key]]
    of the validators, as a function of [validated]. *)
Definition assign_if_boolean (settings : value) (validated : gmap string value)
    (key : string) : gmap string value :=
  match get_prop settings key with
  | Some (Data (VBool b)) => <[key := VBool b]> validated
  | _ => validated
  end.

(** The own enumerable properties a spread [{...x}] copies.  Built-in
    functions and prototypes have none. *)
Definition spread_obj (x : jsval) : gmap string value :=
  match x with
  | Data (VObj o) => o
  | Data (VArr l) => list_to_map (imap (λ i x, (pretty i, x)) l)
  | Data (VStr s) =>
      list_to_map (imap (λ i c, (pretty i, VStr (String c EmptyString)))
                        (String.list_ascii_of_string s))
  | Data _ => ∅
  | Builtin _ => ∅
  end.

(** [{...a, ...b}]: the properties of [b] win. *)
Definition merge (a b : gmap string value) : gmap string value := b ∪ a.

(** [s.toLowerCase()] on ASCII text. *)
Definition lower_char (c : ascii) : ascii :=
  let n := nat_of_ascii c in
  if (65 <=? n)%nat && (n <=? 90)%nat then ascii_of_nat (n + 32) else c.

Fixpoint toLowerCase (s : string) : string :=
  match s with
  | EmptyString => EmptyString
  | String c rest => String (lower_char c) (toLowerCase rest)
  end.

(** [hay.includes(needle)]: [needle] occurs somewhere in [hay]. *)
Fixpoint occurs (needle hay : string) : bool :=
  String.prefix needle hay ||
  match hay with
  | EmptyString => false
  | String _ rest => occurs needle rest
  end.

(** The regular expressions of the scripts are alternatives of literal
    text, matched anywhere in the subject, with or without the [i] flag.
    On ASCII text the [i] flag compares the lower-cased strings. *)
Record regexp : Type := RegExp { alternatives : list string; ignoreCase : bool }.

(** [pattern.test(subject)]. *)
Definition regexp_test (pattern : regexp) (subject : string) : bool :=
  existsb (λ alt,
             if ignoreCase pattern
             then occurs (toLowerCase alt) (toLowerCase subject)
             else occurs alt subject)
          (alternatives pattern).

(** What can be thrown: an [Error] instance (with its [name] and
    [message]) or any other value. *)
Inductive exn : Type :=
| JsError (name message : string)
| JsThrow (v : value).

(** [error.message] in a catch clause. *)
Definition exn_message (e : exn) : value :=
  match e with
  | JsError _ m => VStr m
  | JsThrow (VObj o) => default VUndefined (o !! "message")
  | JsThrow _ => VUndefined
  end.

End JS.
Export JS.

(* ===================================================================== *)
(** * Effects: state and exceptions                                       *)
(* ===================================================================== *)

Module Eff.

(** How a call ends: it returns a value, or it throws.  An [async]
    function is run to completion: a fulfilled promise is a return, a
    rejected one a throw, and [await] is sequencing. *)
Inductive outcome (A : Type) : Type :=
| Returned (a : A)
| Thrown (e : exn).
Arguments Returned {A} a.
Arguments Thrown {A} e.

(** A computation over a world [W]. *)
Definition M (W A : Type) : Type := W → outcome A * W.

Definition ret {W A} (a : A) : M W A := λ w, (Returned a, w).

Definition throw {W A} (e : exn) : M W A := λ w, (Thrown e, w).

Definition bind {W A B} (m : M W A) (k : A → M W B) : M W B :=
  λ w, match m w with
       | (Returned a, w') => k a w'
       | (Thrown e, w') => (Thrown e, w')
       end.

(** [try { body } catch (error) { handler error }]. *)
Definition try_catch {W A} (body : M W A) (handler : exn → M W A) : M W A :=
  λ w, match body w with
       | (Returned a, w') => (Returned a, w')
       | (Thrown e, w') => handler e w'
       end.

Definition modify {W} (f : W → W) : M W unit := λ w, (Returned tt, f w).

End Eff.
Export Eff.

Declare Scope js_scope.
Delimit Scope js_scope with js.
Notation "'let*' x := m 'in' k" := (bind m (λ x, k))
  (at level 10, x name, m at level 100, k at level 200) : js_scope.
Notation "'do*' m 'in' k" := (bind m (λ _, k))
  (at level 10, m at level 100, k at level 200) : js_scope.
#[local] Open Scope js_scope.

(* ===================================================================== *)
(** * The host: console, chrome.storage.local, chrome.action, timers      *)
(* ===================================================================== *)

Module Chrome.

Inductive log_level : Type := LevelLog | LevelInfo | LevelWarn | LevelError.

Inductive log_item : Type :=
| LText (s : string)
| LValue (v : value)
| LExn (e : exn).

(** One call of a [console] method with its arguments. *)
Record log_entry : Type := LogEntry { level : log_level; items : list log_item }.

(** The keys the scripts keep in [chrome.storage.local].  [unlockSettings]
    is read back through a validator, so any value may sit there.
    [siteSettings] is the object from hostname to override, and
    [notifiedSites] the array of hostnames; both are only ever written by
    the background script, as an object and as an array. *)
Record storage_area : Type := StorageArea {
  unlockSettings : option value;
  siteSettings : option (gmap string value);
  notifiedSites : option (list value)
}.

(** What a timer runs when it fires. *)
Inductive task : Type := RestoreBadge.

(** The part of the browser the background script talks to.
    [storage_fault] and [action_fault], when set, make every call of that
    API reject with the given error.  [sent] collects what the message
    handlers pass to [sendResponse]. *)
Record chrome : Type := Chrome {
  local : storage_area;
  storage_fault : option exn;
  badgeText : string;
  badgeBackgroundColor : string;
  action_fault : option exn;
  console : list log_entry;
  timeouts : list (nat * task);
  sent : list value
}.

Definition set_local (f : storage_area → storage_area) (w : chrome) : chrome :=
  Chrome (f (local w)) (storage_fault w) (badgeText w) (badgeBackgroundColor w)
         (action_fault w) (console w) (timeouts w) (sent w).

Definition set_badgeText (t : string) (w : chrome) : chrome :=
  Chrome (local w) (storage_fault w) t (badgeBackgroundColor w)
         (action_fault w) (console w) (timeouts w) (sent w).

Definition set_badgeBackgroundColor (c : string) (w : chrome) : chrome :=
  Chrome (local w) (storage_fault w) (badgeText w) c
         (action_fault w) (console w) (timeouts w) (sent w).

Definition add_console (e : log_entry) (w : chrome) : chrome :=
  Chrome (local w) (storage_fault w) (badgeText w) (badgeBackgroundColor w)
         (action_fault w) (console w ++ [e]) (timeouts w) (sent w).

Definition add_timeout (delay : nat) (t : task) (w : chrome) : chrome :=
  Chrome (local w) (storage_fault w) (badgeText w) (badgeBackgroundColor w)
         (action_fault w) (console w) (timeouts w ++ [(delay, t)]) (sent w).

Definition add_sent (r : value) (w : chrome) : chrome :=
  Chrome (local w) (storage_fault w) (badgeText w) (badgeBackgroundColor w)
         (action_fault w) (console w) (timeouts w) (sent w ++ [r]).

(** An API call that rejects when the fault is set and otherwise runs. *)
Definition api_call {A} (fault : chrome → option exn) (run : M chrome A) : M chrome A :=
  λ w, match fault w with
       | Some e => (Thrown e, w)
       | None => run w
       end.

(** [await chrome.storage.local.get(key)], then [result[key]]: [None] is
    an absent key. *)
Definition storage_local_get {A} (slot : storage_area → option A) : M chrome (option A) :=
  api_call storage_fault (λ w, (Returned (slot (local w)), w)).

(** [await chrome.storage.local.set({ [key]: v })]. *)
Definition storage_local_set (put : storage_area → storage_area) : M chrome unit :=
  api_call storage_fault (modify (set_local put)).

Definition put_unlockSettings (v : value) (a : storage_area) : storage_area :=
  StorageArea (Some v) (siteSettings a) (notifiedSites a).

Definition put_siteSettings (o : gmap string value) (a : storage_area) : storage_area :=
  StorageArea (unlockSettings a) (Some o) (notifiedSites a).

Definition put_notifiedSites (l : list value) (a : storage_area) : storage_area :=
  StorageArea (unlockSettings a) (siteSettings a) (Some l).

(** [await chrome.action.setBadgeText({ text })]. *)
Definition action_setBadgeText (text : string) : M chrome unit :=
  api_call action_fault (modify (set_badgeText text)).

(** [await chrome.action.setBadgeBackgroundColor({ color })]. *)
Definition action_setBadgeBackgroundColor (color : string) : M chrome unit :=
  api_call action_fault (modify (set_badgeBackgroundColor color)).

(** [setTimeout(task, delay)]. *)
Definition setTimeout (t : task) (delay : nat) : M chrome unit :=
  modify (add_timeout delay t).

(** [console.error(...items)] and [console.info(...items)]. *)
Definition console_error (xs : list log_item) : M chrome unit :=
  modify (add_console (LogEntry LevelError xs)).

Definition console_info (xs : list log_item) : M chrome unit :=
  modify (add_console (LogEntry LevelInfo xs)).

Definition console_log (xs : list log_item) : M chrome unit :=
  modify (add_console (LogEntry LevelLog xs)).

(** The [sendResponse] callback of [chrome.runtime.onMessage]. *)
Definition sendResponse (r : value) : M chrome unit :=
  modify (add_sent r).

End Chrome.
Export Chrome.

(* ===================================================================== *)
(** * ErrorHandler.wrap (the same in all three scripts)                   *)
(* ===================================================================== *)

Module ErrorHandler.
Section Wrap.

(** A world is the console and the rest of the state [St], whatever the
    wrapped function works on; [prefix] is the script's [Logger.prefix]. *)
Context {St : Type}.
Variable prefix : string.

Definition world : Type := list log_entry * St.

Definition console_error (xs : list log_item) : M world unit :=
  modify (λ w, ((fst w ++ [LogEntry LevelError xs])%list, snd w)).

(** [Logger.error(...args)] is [console.error(this.prefix, ...args)]. *)
Definition Logger_error (args : list log_item) : M world unit :=
  console_error (LText prefix :: args).

(** [wrap(fn, context)] returns [function(...args)]: it applies [fn] to
    its own [this] and [args] inside [try], and the [catch] logs and
    returns [undefined]. *)
Definition wrap (fn : value → list value → M world value) (context : string)
  : value → list value → M world value :=
  λ this args,
    try_catch
      (fn this args)
      (λ error,
         do* Logger_error [LText ("Error in " +:+ context +:+ ":"); LExn error] in
         ret VUndefined).

End Wrap.
End ErrorHandler.

(* ===================================================================== *)
(** * The background script                                               *)
(* ===================================================================== *)

(** [background.js] exists in two revisions: version 8.1.0 (prefix
    [[UnlockIt]]) and version 8.0.0 (prefix [[UnlockBackground]]), the
    second one with [SiteSettingsManager].  What they share is written once,
    over the version constant and the log prefix. *)
Module Background.
Section Script.

Variable VERSION : string.
Variable prefix : string.

Definition STORAGE_KEY : string := "unlockSettings".
Definition DEBUG : bool := false.

Definition DEFAULT_SETTINGS : gmap string value :=
  list_to_map
    [ ("mainEnabled", VBool false);
      ("copyEnabled", VBool true);
      ("pasteEnabled", VBool true);
      ("inputEnabled", VBool true);
      ("version", VStr VERSION) ].

Definition Logger_log (args : list log_item) : M chrome unit :=
  if DEBUG then console_log (LText prefix :: args) else ret tt.

Definition Logger_error (args : list log_item) : M chrome unit :=
  console_error (LText prefix :: args).

Definition Logger_info (args : list log_item) : M chrome unit :=
  console_info (LText prefix :: args).

(** [Utils.validateSettings]: a copy of the defaults in which each of the
    four flags is overwritten when [typeof settings[key] === 'boolean']. *)
Definition validateSettings (settings : value) : gmap string value :=
  if negb (truthy settings) || negb (bool_decide (typeof settings = "object"))
  then DEFAULT_SETTINGS
  else
    foldl (assign_if_boolean settings)
          DEFAULT_SETTINGS
          ["mainEnabled"; "copyEnabled"; "pasteEnabled"; "inputEnabled"].

(** [IconManager.update(enabled)]. *)
Definition IconManager_update (enabled : jsval) : M chrome unit :=
  try_catch
    (let text := if truthy_js enabled then "ON" else EmptyString in
     let color := if truthy_js enabled then "#4ade80" else "#9ca3af" in
     do* action_setBadgeText text in
     do* action_setBadgeBackgroundColor color in
     Logger_log [LText "Icon badge updated:";
                 LText (if truthy_js enabled then "ON" else "OFF")])
    (λ error, Logger_error [LText "Failed to update icon badge:"; LExn error]).

(** [Storage.getSettings]. *)
Definition Storage_getSettings : M chrome (gmap string value) :=
  try_catch
    (let* result := storage_local_get unlockSettings in
     ret (validateSettings (default VUndefined result)))
    (λ error,
       do* Logger_error [LText "Failed to get settings:"; LExn error] in
       ret DEFAULT_SETTINGS).

(** [Storage.saveSettings]. *)
Definition Storage_saveSettings (settings : value) : M chrome bool :=
  try_catch
    (let validated := validateSettings settings in
     do* storage_local_set (put_unlockSettings (VObj validated)) in
     do* IconManager_update (get_prop_obj validated "mainEnabled") in
     ret true)
    (λ error,
       do* Logger_error [LText "Failed to save settings:"; LExn error] in
       ret false).

(** *** MessageHandler: the notified-sites list *)

(** The message a content script sends when it finds a restriction; its
    [hostname] and [url] come from [window.location]. *)
Record restriction_message : Type := RestrictionMessage {
  hostname : string;
  url : string
}.

(** [sites.includes(h)] for a string [h]: some element is that string. *)
Definition same_string (h : string) (x : value) : bool :=
  match x with
  | VStr s => String.eqb s h
  | _ => false
  end.

Definition includes (sites : list value) (h : string) : bool :=
  existsb (same_string h) sites.

(** [sites.slice(-n)]: the last [n] elements, or all of them when there
    are fewer. *)
Definition slice_last (n : nat) (sites : list value) : list value :=
  drop (length sites - n) sites.

Definition response (fields : list (string * value)) : value :=
  VObj (list_to_map fields).

(** [MessageHandler.getNotifiedSites]. *)
Definition getNotifiedSites : M chrome (list value) :=
  try_catch
    (let* result := storage_local_get notifiedSites in
     ret (default [] result))
    (λ _, ret []).

(** [MessageHandler.saveNotifiedSites]. *)
Definition saveNotifiedSites (sites : list value) : M chrome unit :=
  try_catch
    (let limited := slice_last 20 sites in
     storage_local_set (put_notifiedSites limited))
    (λ error, Logger_error [LText "Failed to save notified sites:"; LExn error]).

(** [MessageHandler.showRestrictionNotification]. *)
Definition showRestrictionNotification (data : restriction_message) : M chrome unit :=
  try_catch
    (do* action_setBadgeText "!" in
     do* action_setBadgeBackgroundColor "#f59e0b" in
     do* setTimeout RestoreBadge 3000 in
     Logger_info [LText "Restriction notification shown for:"; LText (hostname data)])
    (λ error, Logger_error [LText "Failed to show notification:"; LExn error]).

(** [MessageHandler.handleRestrictionDetected]. *)
Definition handleRestrictionDetected (data : restriction_message) : M chrome unit :=
  try_catch
    (do* Logger_log [LText "Restriction detected:"; LText (hostname data)] in
     let* settings := Storage_getSettings in
     if truthy_js (get_prop_obj settings "mainEnabled") then
       sendResponse (response [("success", VBool true); ("notified", VBool false)])
     else
       let* notifiedSites := getNotifiedSites in
       if includes notifiedSites (hostname data) then
         sendResponse (response [("success", VBool true); ("notified", VBool false)])
       else
         let notifiedSites := (notifiedSites ++ [VStr (hostname data)])%list in
         do* saveNotifiedSites notifiedSites in
         do* showRestrictionNotification data in
         sendResponse (response [("success", VBool true); ("notified", VBool true)]))
    (λ error,
       do* Logger_error [LText "Failed to handle restriction detection:"; LExn error] in
       sendResponse (response [("success", VBool false); ("error", exn_message error)])).

(** *** SiteSettingsManager (revision 8.0.0 only) *)

(** [SiteSettingsManager.getSiteSettings]:
    [allSiteSettings = result[SITE_SETTINGS_KEY] || {}] and then
    [allSiteSettings[hostname] || null]. *)
Definition getSiteSettings (hostname : string) : M chrome jsval :=
  try_catch
    (let* result := storage_local_get siteSettings in
     let allSiteSettings := default ∅ result in
     let found := get_prop_obj allSiteSettings hostname in
     ret (if truthy_js found then found else Data VNull))
    (λ error,
       do* Logger_error [LText "Failed to get site settings:"; LExn error] in
       ret (Data VNull)).

(** [SiteSettingsManager.getEffectiveSettings]. *)
Definition getEffectiveSettings (hostname : string) : M chrome (gmap string value) :=
  let* globalSettings := Storage_getSettings in
  let* siteSettings := getSiteSettings hostname in
  if truthy_js siteSettings then
    ret (<["hasSiteSpecificSettings" := VBool true]>
           (merge globalSettings (spread_obj siteSettings)))
  else
    ret (<["hasSiteSpecificSettings" := VBool false]> globalSettings).

End Script.

(** The two revisions. *)
Definition VERSION_8_1 : string := "8.1.0".
Definition prefix_8_1 : string := "[UnlockIt]".
Definition VERSION_8_0 : string := "8.0.0".
Definition prefix_8_0 : string := "[UnlockBackground]".

End Background.

(* ===================================================================== *)
(** * The content script                                                  *)
(* ===================================================================== *)

Module Content.

Definition VERSION : string := "8.1.0".
Definition prefix : string := "[UnlockIt]".

Definition DEFAULT_SETTINGS : gmap string value :=
  list_to_map
    [ ("mainEnabled", VBool false);
      ("copyEnabled", VBool true);
      ("pasteEnabled", VBool true);
      ("inputEnabled", VBool true);
      ("version", VStr VERSION) ].

Definition Logger_error (args : list log_item) : M chrome unit :=
  console_error (LText prefix :: args).

(** [Utils.validateSettings] of the content script: the same checks as in
    the background script, written out flag by flag. *)
Definition validateSettings (settings : value) : gmap string value :=
  if negb (truthy settings) || negb (bool_decide (typeof settings = "object"))
  then DEFAULT_SETTINGS
  else
    let validated := DEFAULT_SETTINGS in
    let validated := assign_if_boolean settings validated "mainEnabled" in
    let validated := assign_if_boolean settings validated "copyEnabled" in
    let validated := assign_if_boolean settings validated "pasteEnabled" in
    let validated := assign_if_boolean settings validated "inputEnabled" in
    validated.

(** [Storage.getSettings] of the content script. *)
Definition Storage_getSettings : M chrome (gmap string value) :=
  try_catch
    (let* result := storage_local_get unlockSettings in
     ret (validateSettings (default VUndefined result)))
    (λ error,
       do* Logger_error [LText "Failed to get settings from storage:"; LExn error] in
       ret DEFAULT_SETTINGS).

(** ** PageDetector *)

(** The keys of [PageDetector.types], in the order of the source. *)
Inductive page_type : Type :=
| feishu | chaoxing | pintia | csdn | juejin | zhihu | baidu | baiduwenku
| docin | educoder | weixin | cnki.

Definition all_types : list page_type :=
  [feishu; chaoxing; pintia; csdn; juejin; zhihu; baidu; baiduwenku;
   docin; educoder; weixin; cnki].

(** [PageDetector.types]. *)
Definition types (t : page_type) : regexp :=
  match t with
  | feishu => RegExp ["feishu.cn"; "larkoffice.com"] true
  | chaoxing => RegExp ["chaoxing.com"] true
  | pintia => RegExp ["pintia.cn"] true
  | csdn => RegExp ["csdn.net"] true
  | juejin => RegExp ["juejin.cn"] true
  | zhihu => RegExp ["zhihu.com"] true
  | baidu => RegExp ["baidu.com"] true
  | baiduwenku => RegExp ["wenku.baidu.com"] true
  | docin => RegExp ["docin.com"; "doc88.com"] true
  | educoder => RegExp ["educoder.net"] true
  | weixin => RegExp ["mp.weixin.qq.com"] true
  | cnki => RegExp ["cnki.net"; "cnki.com.cn"; "kns.cnki.net"] true
  end.

(** [PageDetector.is(type)] on a page whose [window.location.hostname] is
    [hostname].  Every caller passes a key of the table, so the [?.] and
    [?? false] of the source never take their fallback. *)
Definition PageDetector_is (hostname : string) (t : page_type) : bool :=
  regexp_test (types t) hostname.

(** [PageDetector.detect()]. *)
Definition PageDetector_detect (hostname : string) : list page_type :=
  List.filter (PageDetector_is hostname) all_types.

(** ** App.enableFeatures *)

(** The calls [enableFeatures] makes, in order, one constructor per
    callee.  The site handlers and the [UnlockFeatures] functions are all
    built with [ErrorHandler.wrap], so each of them returns to
    [enableFeatures]; the sequence is the one of a run in which the
    remaining callees return too. *)
Inductive call : Type :=
| Logger_info_call (message : string)
| SiteHandlers_call (t : page_type)
| UnlockFeatures_removeSpecificEventListeners
| UnlockFeatures_interceptXHR
| UnlockFeatures_interceptFetch
| SmartDOMObserver_init
| ShadowDOMHandler_init
| IframeHandler_init
| App_setupKeyboardShortcuts
| App_setupDoubleClick
| App_setupUniversalHandlers
| UnlockFeatures_removeVipMask
| UnlockFeatures_unlockCssRestrictions.

(** The [if ... else if ... else] chain at the head of [enableFeatures]. *)
Definition enableFeatures_dispatch (hostname : string) : list call :=
  if PageDetector_is hostname feishu then [SiteHandlers_call feishu]
  else if PageDetector_is hostname pintia then [SiteHandlers_call pintia]
  else if PageDetector_is hostname chaoxing then [SiteHandlers_call chaoxing]
  else if PageDetector_is hostname csdn then [SiteHandlers_call csdn]
  else if PageDetector_is hostname docin then [SiteHandlers_call docin]
  else if PageDetector_is hostname educoder then [SiteHandlers_call educoder]
  else if PageDetector_is hostname baiduwenku then [SiteHandlers_call baiduwenku]
  else if PageDetector_is hostname weixin then [SiteHandlers_call weixin]
  else if PageDetector_is hostname cnki then [SiteHandlers_call cnki]
  else if PageDetector_is hostname zhihu then [SiteHandlers_call zhihu]
  else [UnlockFeatures_removeSpecificEventListeners;
        UnlockFeatures_interceptXHR;
        UnlockFeatures_interceptFetch].


(** ** SmartDOMObserver *)

(** A DOM node: its identity, [nodeType], [tagName] (elements only), its
    attributes and its children. *)
Inductive node : Type :=
| Node (nid : nat) (nodeType : nat) (tagName : option string)
       (attrs : gmap string string) (childNodes : list node).

Definition nid (n : node) : nat := let 'Node i _ _ _ _ := n in i.
Definition nodeType (n : node) : nat := let 'Node _ t _ _ _ := n in t.
Definition tagName (n : node) : option string := let 'Node _ _ t _ _ := n in t.
Definition attrs (n : node) : gmap string string := let 'Node _ _ _ a _ := n in a.
Definition childNodes (n : node) : list node := let 'Node _ _ _ _ c := n in c.

Definition ELEMENT_NODE : nat := 1.

Definition is_element (n : node) : bool := (nodeType n =? ELEMENT_NODE)%nat.

(** [el.getAttribute(name)]: the value, or [null]. *)
Definition getAttribute (n : node) (name : string) : value :=
  match attrs n !! name with
  | Some v => VStr v
  | None => VNull
  end.

(** [el.querySelectorAll('*')]: the elements below [el], in document
    order. *)
Fixpoint querySelectorAll_star (n : node) : list node :=
  match n with
  | Node _ _ _ _ children =>
      (fix below (cs : list node) : list node :=
         match cs with
         | [] => []
         | c :: rest =>
             ((if is_element c then [c] else []) ++ querySelectorAll_star c
              ++ below rest)%list
         end) children
  end.

(** [MutationRecord.type] has three values. *)
Inductive mutation_type : Type := attributes | characterData | childList.

Record mutation : Type := Mutation {
  type : mutation_type;
  target : node;
  addedNodes : list node
}.

Definition is_type (a b : mutation_type) : bool :=
  match a, b with
  | attributes, attributes | characterData, characterData
  | childList, childList => true
  | _, _ => false
  end.

(** The observer object.  [timers] are the pending [setTimeout] calls
    (identifier and delay), [processed] the argument of each call of
    [processElements], in order. *)
Record observer : Type := Observer {
  pendingMutations : list mutation;
  batchTimer : option nat;
  timers : list (nat * nat);
  next_timer : nat;
  processedMutations : nat;
  processed : list (list node)
}.

Definition THROTTLE_DELAY : nat := 16.

(** [SmartDOMObserver.isValidMutation]. *)
Definition isValidMutation (m : mutation) : bool :=
  if is_type (type m) characterData then false
  else
    let target := target m in
    if negb (nodeType target =? ELEMENT_NODE)%nat then false
    else
      let tagName := toLowerCase <$> tagName target in
      if bool_decide (tagName = Some "script")
         || bool_decide (tagName = Some "style")
         || bool_decide (tagName = Some "link")
      then false
      else if is_type (type m) attributes
              && truthy (getAttribute target "data-unlock-processed")
      then false
      else true.

(** [clearTimeout(id)] and [setTimeout(..., delay)] on the observer's
    timers. *)
Definition clear_timer (id : option nat) (ts : list (nat * nat)) : list (nat * nat) :=
  match id with
  | Some i => List.filter (λ t, negb (fst t =? i)%nat) ts
  | None => ts
  end.

(** [SmartDOMObserver.handleMutations]. *)
Definition handleMutations (mutations : list mutation) (o : observer) : observer :=
  let validMutations := List.filter isValidMutation mutations in
  if (length validMutations =? 0)%nat then o
  else
    Observer (pendingMutations o ++ validMutations)
             (Some (next_timer o))
             (clear_timer (batchTimer o) (timers o) ++ [(next_timer o, THROTTLE_DELAY)])
             (S (next_timer o))
             (processedMutations o)
             (processed o).

(** [Set.prototype.add]: nodes are compared by identity. *)
Definition set_add (s : list node) (n : node) : list node :=
  if existsb (λ x, (nid x =? nid n)%nat) s then s else (s ++ [n])%list.

(** The body of [mutation.addedNodes.forEach(node => ...)]. *)
Definition collect_added (elementsToProcess : list node) (added : node) : list node :=
  if (nodeType added =? ELEMENT_NODE)%nat
  then foldl set_add (set_add elementsToProcess added) (querySelectorAll_star added)
  else elementsToProcess.

(** The body of [mutations.forEach(mutation => ...)] in [batchProcess]. *)
Definition collect (elementsToProcess : list node) (m : mutation) : list node :=
  if is_type (type m) childList then
    foldl collect_added elementsToProcess (addedNodes m)
  else if is_type (type m) attributes then
    set_add elementsToProcess (target m)
  else elementsToProcess.

(** [SmartDOMObserver.batchProcess]. *)
Definition batchProcess (o : observer) : observer :=
  if (length (pendingMutations o) =? 0)%nat then o
  else
    let mutations := pendingMutations o in
    let elementsToProcess := foldl collect [] mutations in
    Observer []
             (batchTimer o)
             (timers o)
             (next_timer o)
             (processedMutations o + length mutations)
             (processed o ++ [elementsToProcess]).

End Content.

(* ===================================================================== *)
(** * Utils.debounce (content script and popup)                           *)
(* ===================================================================== *)

Module Debounce.
Section Debounce.

(** [A] is what one invocation passes on to [fn]: its [this] and its
    arguments. *)
Context {A : Type}.
Variable delay : nat.

(** A pending [setTimeout]: its identifier, the time from which it may
    run, and the invocation its callback [() => fn.apply(this, args)]
    closes over. *)
Record timer : Type := Timer { timer_id : nat; due : nat; captured : A }.

(** The closure variable [timeoutId], the host's timers and clock, and
    the applications of [fn] made so far. *)
Record state : Type := State {
  now : nat;
  next_id : nat;
  pending : list timer;
  timeoutId : option nat;
  applied : list A
}.

Definition init : state := State 0 1 [] None [].

(** [clearTimeout(id)]: [undefined] and unknown identifiers are ignored. *)
Definition clearTimeout (id : option nat) (ts : list timer) : list timer :=
  match id with
  | Some i => List.filter (λ t, negb (timer_id t =? i)%nat) ts
  | None => ts
  end.

(** One call of the function returned by [debounce(fn, delay)]:
    [clearTimeout(timeoutId); timeoutId = setTimeout(..., delay)]. *)
Definition debounced (args : A) (s : state) : state :=
  let ts := clearTimeout (timeoutId s) (pending s) in
  State (now s) (S (next_id s))
        (ts ++ [Timer (next_id s) (now s + delay) args])
        (Some (next_id s))
        (applied s).

(** The host runs a pending timer: only from its due time on, and once. *)
Definition fire (id : nat) (s : state) : option state :=
  match List.find (λ t, (timer_id t =? id)%nat) (pending s) with
  | Some t =>
      if (due t <=? now s)%nat
      then Some (State (now s) (next_id s)
                       (List.filter (λ t', negb (timer_id t' =? id)%nat) (pending s))
                       (timeoutId s)
                       (applied s ++ [captured t]))
      else None
  | None => None
  end.

Definition wait (d : nat) (s : state) : state :=
  State (now s + d) (next_id s) (pending s) (timeoutId s) (applied s).

(** What can happen to a debounced function: it is invoked, time passes,
    or the host runs one of its timers. *)
Inductive event : Type :=
| Invoke (args : A)
| Wait (d : nat)
| Fire (id : nat).

Definition step (s : state) (e : event) : option state :=
  match e with
  | Invoke args => Some (debounced args s)
  | Wait d => Some (wait d s)
  | Fire id => fire id s
  end.

(** A history is a list of events; [run] is [None] when the history asks
    the host for a timer that is not pending or not yet due. *)
Fixpoint run (s : state) (es : list event) : option state :=
  match es with
  | [] => Some s
  | e :: rest =>
      match step s e with
      | Some s' => run s' rest
      | None => None
      end
  end.

(** Every invocation but the first comes less than [delay] after the one
    before it.  [since] is the time elapsed since the last invocation. *)
Fixpoint spaced (since : option nat) (es : list event) : bool :=
  match es with
  | [] => true
  | Invoke _ :: rest =>
      match since with
      | Some g => (g <? delay)%nat
      | None => true
      end && spaced (Some 0) rest
  | Wait d :: rest => spaced ((λ g, g + d) <$> since) rest
  | Fire _ :: rest => spaced since rest
  end.

(** The arguments of the last invocation in a history. *)
Fixpoint last_invoke (es : list event) : option A :=
  match es with
  | [] => None
  | Invoke a :: rest =>
      match last_invoke rest with
      | Some b => Some b
      | None => Some a
      end
  | _ :: rest => last_invoke rest
  end.

(** Two predicates on states, for the statements.  At most one timer is
    pending, and [timeoutId] names it: *)
Definition one_timer (s : state) : Prop :=
  pending s = [] ∨ ∃ t, pending s = [t] ∧ timeoutId s = Some (timer_id t).

(** Where a well-spaced history stands, [since] being the time since the
    last invocation and [cur] its arguments: its timer is pending and [fn]
    has not run, or the timer has run and [fn] ran once. *)
Definition standing (since : option nat) (cur : option A) (s : state) : Prop :=
  match since, cur with
  | None, None => pending s = [] ∧ applied s = []
  | Some g, Some a =>
      (∃ id due, pending s = [Timer id due a] ∧ timeoutId s = Some id
               ∧ due + g = now s + delay ∧ applied s = [])
      ∨ (pending s = [] ∧ applied s = [a] ∧ delay ≤ g)
  | _, _ => False
  end.

End Debounce.
End Debounce.

(* ===================================================================== *)
(** * The popup                                                           *)
(* ===================================================================== *)

Module Popup.

Definition VERSION : string := "8.0.0".

(** The [State] object of [popup.js]. *)
Record State : Type := MkState {
  settings : gmap string value;
  isUpdating : bool
}.

(** [!newSettings.field]. *)
Definition not_field (o : gmap string value) (field : string) : value :=
  VBool (negb (truthy_js (get_prop_obj o field))).

(** [State.toggle(key)]: the returned settings and the new state. *)
Definition toggle (key : string) (st : State) : gmap string value * State :=
  if isUpdating st then (settings st, st)
  else
    let newSettings := settings st in
    let newSettings :=
      if String.eqb key "main" then
        <["mainEnabled" := not_field newSettings "mainEnabled"]> newSettings
      else if String.eqb key "copy" then
        if truthy_js (get_prop_obj newSettings "mainEnabled")
        then <["copyEnabled" := not_field newSettings "copyEnabled"]> newSettings
        else newSettings
      else if String.eqb key "paste" then
        if truthy_js (get_prop_obj newSettings "mainEnabled")
        then <["pasteEnabled" := not_field newSettings "pasteEnabled"]> newSettings
        else newSettings
      else if String.eqb key "input" then
        if truthy_js (get_prop_obj newSettings "mainEnabled")
        then <["inputEnabled" := not_field newSettings "inputEnabled"]> newSettings
        else newSettings
      else newSettings in
    (newSettings, MkState newSettings (isUpdating st)).

End Popup.

(* ===================================================================== *)
(** * Vocabulary of the statements                                        *)
(* ===================================================================== *)

(** Definitions that say what the theorems are about; none of them is part
    of the scripts. *)
Module Spec.

(** The field [key] of a stored value: present when the value is an
    object that has it. *)
Definition stored_field (stored : value) (key : string) : option value :=
  match stored with
  | VObj o => o !! key
  | _ => None
  end.

(** A flag: the field when it is a boolean, the default [d] otherwise. *)
Definition flag_or (d : bool) (field : option value) : bool :=
  match field with
  | Some (VBool b) => b
  | _ => d
  end.

(** The object with exactly the four flags and the version. *)
Definition settings_record (m c p i : bool) (version : string) : gmap string value :=
  list_to_map
    [ ("mainEnabled", VBool m); ("copyEnabled", VBool c);
      ("pasteEnabled", VBool p); ("inputEnabled", VBool i);
      ("version", VStr version) ].

(** What validation is expected to make of a stored value. *)
Definition expected_settings (version : string) (stored : value) : gmap string value :=
  settings_record (flag_or false (stored_field stored "mainEnabled"))
                  (flag_or true (stored_field stored "copyEnabled"))
                  (flag_or true (stored_field stored "pasteEnabled"))
                  (flag_or true (stored_field stored "inputEnabled"))
                  version.

(** The flag a property read yields. *)
Definition read_flag (d : bool) (x : option jsval) : bool :=
  match x with
  | Some (Data (VBool b)) => b
  | _ => d
  end.



(** The generic unlock path. *)
Definition generic_path : list Content.call :=
  [Content.UnlockFeatures_removeSpecificEventListeners;
   Content.UnlockFeatures_interceptXHR;
   Content.UnlockFeatures_interceptFetch].


(** A mutation is invalid, in the words of C7: its type is
    [characterData], or its target is not an element, or is a [script],
    [style] or [link] element, or it is an attribute mutation whose target
    carries [data-unlock-processed]. *)
Definition claimed_invalid (m : Content.mutation) : Prop :=
  Content.type m = Content.characterData
  ∨ Content.nodeType (Content.target m) ≠ Content.ELEMENT_NODE
  ∨ (∃ tag, Content.tagName (Content.target m) = Some tag
          ∧ toLowerCase tag ∈ ["script"; "style"; "link"])
  ∨ (Content.type m = Content.attributes
     ∧ is_Some (Content.attrs (Content.target m) !! "data-unlock-processed")).

(** The same with the last case as the code has it: the attribute has a
    value that is not the empty string. *)
Definition invalid (m : Content.mutation) : Prop :=
  Content.type m = Content.characterData
  ∨ Content.nodeType (Content.target m) ≠ Content.ELEMENT_NODE
  ∨ (∃ tag, Content.tagName (Content.target m) = Some tag
          ∧ toLowerCase tag ∈ ["script"; "style"; "link"])
  ∨ (Content.type m = Content.attributes
     ∧ ∃ v, Content.attrs (Content.target m) !! "data-unlock-processed" = Some v
          ∧ v ≠ EmptyString).

(** [e] lies below [n] in the tree. *)
Inductive descendant : Content.node → Content.node → Prop :=
| descendant_child n c :
    c ∈ Content.childNodes n → descendant n c
| descendant_below n c e :
    c ∈ Content.childNodes n → descendant c e → descendant n e.

(** What a batch has to process, in the words of C8: [e] is an element
    node added by a queued [childList] mutation, or an element below one,
    or the target of a queued attribute mutation. *)
Definition to_process (queue : list Content.mutation) (e : Content.node) : Prop :=
  (∃ m n, m ∈ queue ∧ Content.type m = Content.childList
        ∧ n ∈ Content.addedNodes m
        ∧ Content.nodeType n = Content.ELEMENT_NODE
        ∧ (e = n ∨ (descendant n e ∧ Content.nodeType e = Content.ELEMENT_NODE)))
  ∨ (∃ m, m ∈ queue ∧ Content.type m = Content.attributes ∧ e = Content.target m).

(** The two answers of [handleRestrictionDetected] on its normal
    paths. *)
Definition already_response : value :=
  Background.response [("success", VBool true); ("notified", VBool false)].

Definition notified_response : value :=
  Background.response [("success", VBool true); ("notified", VBool true)].

(** [settings.mainEnabled] as [Storage.getSettings] reports it for what
    is stored in [a]. *)
Definition mainEnabled_stored (a : storage_area) : bool :=
  flag_or false (stored_field (default VUndefined (unlockSettings a)) "mainEnabled").

(** The settings field a popup switch stands for. *)
Definition toggled_field (key : string) : option string :=
  if String.eqb key "main" then Some "mainEnabled"
  else if String.eqb key "copy" then Some "copyEnabled"
  else if String.eqb key "paste" then Some "pasteEnabled"
  else if String.eqb key "input" then Some "inputEnabled"
  else None.

(** Whether a field of a settings object is on (for a boolean field:
    whether it is [true]). *)
Definition field_on (o : gmap string value) (field : string) : bool :=
  truthy_js (get_prop_obj o field).

End Spec.
Export Spec.

(* ===================================================================== *)
(** * Sample worlds                                                       *)
(* ===================================================================== *)

Module Examples.

Definition empty_area : storage_area := StorageArea None None None.

(** A browser in which every API answers. *)
Definition healthy (a : storage_area) : chrome :=
  Chrome a None EmptyString EmptyString None [] [] [].

(** A function that counts its calls and throws on an empty argument
    list. *)
Definition picky (this : value) (args : list value) : M (ErrorHandler.world (St := nat)) value :=
  λ w, match args with
       | [] => (Thrown (JsError "TypeError" "no argument"), (fst w, S (snd w)))
       | a :: _ => (Returned a, (fst w, S (snd w)))
       end.

(** An attribute mutation on a [div] whose [data-unlock-processed]
    attribute is the empty string. *)
Definition empty_marker : Content.mutation :=
  Content.Mutation Content.attributes
    (Content.Node 7 1 (Some "DIV") {["data-unlock-processed" := EmptyString]} [])
    [].

(** Twenty-one hostnames, ["site0"] first. *)
Definition many_sites : list value :=
  (λ i : nat, VStr ("site" +:+ pretty i)) <$> seq 0 21.

(** A browser that already notified for twenty sites, with the extension
    switched off. *)
Definition notified_world : chrome :=
  healthy (StorageArea None None (Some (drop 1 many_sites))).

(** The popup with the extension on and every feature on. *)
Definition popup_on : Popup.State :=
  Popup.MkState (settings_record true true true true Popup.VERSION) false.

(** A stored settings object with one flag set, one of the wrong type and
    two missing. *)
Definition partial_settings : value :=
  VObj (list_to_map [("mainEnabled", VBool true); ("copyEnabled", VStr "yes")]).

Definition partial_world : chrome :=
  healthy (StorageArea (Some partial_settings) None None).

End Examples.

(* ===================================================================== *)
(** * Theorems                                                            *)
(* ===================================================================== *)

Lemma settings_record_lookup m c p i ver k :
  settings_record m c p i ver !! k =
    if decide ("mainEnabled" = k) then Some (VBool m)
    else if decide ("copyEnabled" = k) then Some (VBool c)
    else if decide ("pasteEnabled" = k) then Some (VBool p)
    else if decide ("inputEnabled" = k) then Some (VBool i)
    else if decide ("version" = k) then Some (VStr ver)
    else None.
Proof.
  unfold settings_record. rewrite !list_to_map_cons, list_to_map_nil.
  rewrite !lookup_insert, lookup_empty. reflexivity.
Qed.

Lemma set_main m c p i ver b :
  <["mainEnabled" := VBool b]> (settings_record m c p i ver) = settings_record b c p i ver.
Proof.
  apply map_eq; intros k; rewrite ?lookup_insert, !settings_record_lookup.
  repeat case_decide; simplify_eq; reflexivity.
Qed.
Lemma set_copy m c p i ver b :
  <["copyEnabled" := VBool b]> (settings_record m c p i ver) = settings_record m b p i ver.
Proof.
  apply map_eq; intros k; rewrite ?lookup_insert, !settings_record_lookup.
  repeat case_decide; simplify_eq; reflexivity.
Qed.
Lemma set_paste m c p i ver b :
  <["pasteEnabled" := VBool b]> (settings_record m c p i ver) = settings_record m c b i ver.
Proof.
  apply map_eq; intros k; rewrite ?lookup_insert, !settings_record_lookup.
  repeat case_decide; simplify_eq; reflexivity.
Qed.
Lemma set_input m c p i ver b :
  <["inputEnabled" := VBool b]> (settings_record m c p i ver) = settings_record m c p b ver.
Proof.
  apply map_eq; intros k; rewrite ?lookup_insert, !settings_record_lookup.
  repeat case_decide; simplify_eq; reflexivity.
Qed.

Lemma read_flag_stored d v key :
  key ∈ ["mainEnabled"; "copyEnabled"; "pasteEnabled"; "inputEnabled"] →
  truthy v = true → typeof v = "object" →
  read_flag d (get_prop v key) = flag_or d (stored_field v key).
Proof.
  intros Hk Ht Ho.
  destruct v; try discriminate; simpl.
  - (* array *)
    unfold get_prop_arr.
    repeat (apply elem_of_cons in Hk as [-> | Hk]; [vm_compute; reflexivity|]).
    by apply elem_of_nil in Hk.
  - unfold get_prop_obj.
    destruct (fields !! key) as [x|] eqn:E; [reflexivity|].
    repeat (apply elem_of_cons in Hk as [-> | Hk]; [vm_compute; reflexivity|]).
    by apply elem_of_nil in Hk.
Qed.

Lemma default_is_record ver :
  Background.DEFAULT_SETTINGS ver = settings_record false true true true ver.
Proof. reflexivity. Qed.

Lemma guard_false_inv v :
  negb (truthy v) || negb (bool_decide (typeof v = "object")) = false →
  truthy v = true ∧ typeof v = "object".
Proof.
  intros H. apply orb_false_elim in H as [H1 H2].
  apply negb_false_iff in H1, H2. by apply bool_decide_eq_true in H2.
Qed.

Lemma guard_true_no_field v key :
  negb (truthy v) || negb (bool_decide (typeof v = "object")) = true →
  stored_field v key = None.
Proof. destruct v; simpl; try done. Qed.

Lemma copy_main s m c p i ver :
  assign_if_boolean s (settings_record m c p i ver) "mainEnabled" = settings_record (read_flag m (get_prop s "mainEnabled")) c p i ver.
Proof. unfold assign_if_boolean. destruct get_prop as [[[]|]|]; simpl; rewrite ?set_main; reflexivity. Qed.
Lemma copy_copy s m c p i ver :
  assign_if_boolean s (settings_record m c p i ver) "copyEnabled" = settings_record m (read_flag c (get_prop s "copyEnabled")) p i ver.
Proof. unfold assign_if_boolean. destruct get_prop as [[[]|]|]; simpl; rewrite ?set_copy; reflexivity. Qed.
Lemma copy_paste s m c p i ver :
  assign_if_boolean s (settings_record m c p i ver) "pasteEnabled" = settings_record m c (read_flag p (get_prop s "pasteEnabled")) i ver.
Proof. unfold assign_if_boolean. destruct get_prop as [[[]|]|]; simpl; rewrite ?set_paste; reflexivity. Qed.
Lemma copy_input s m c p i ver :
  assign_if_boolean s (settings_record m c p i ver) "inputEnabled" = settings_record m c p (read_flag i (get_prop s "inputEnabled")) ver.
Proof. unfold assign_if_boolean. destruct get_prop as [[[]|]|]; simpl; rewrite ?set_input; reflexivity. Qed.

Lemma background_validate_expected ver v :
  Background.validateSettings ver v = expected_settings ver v.
Proof.
  unfold Background.validateSettings, expected_settings.
  destruct (negb (truthy v) || negb (bool_decide (typeof v = "object"))) eqn:G.
  - rewrite !(guard_true_no_field v _ G). reflexivity.
  - apply guard_false_inv in G as [Ht Ho].
    rewrite <- !(read_flag_stored _ v) by (done || set_solver).
    rewrite default_is_record. cbn [foldl].
    by rewrite copy_main, copy_copy, copy_paste, copy_input.
Qed.

Lemma content_validate_expected v :
  Content.validateSettings v = expected_settings Content.VERSION v.
Proof.
  unfold Content.validateSettings, expected_settings.
  destruct (negb (truthy v) || negb (bool_decide (typeof v = "object"))) eqn:G.
  - rewrite !(guard_true_no_field v _ G). reflexivity.
  - apply guard_false_inv in G as [Ht Ho].
    rewrite <- !(read_flag_stored _ v) by (done || set_solver).
    change Content.DEFAULT_SETTINGS with (settings_record false true true true Content.VERSION).
    cbv zeta.
    by rewrite copy_main, copy_copy, copy_paste, copy_input.
Qed.

Lemma expected_settings_dom ver v :
  dom (expected_settings ver v) =
    list_to_set (C := gset string) ["mainEnabled"; "copyEnabled"; "pasteEnabled"; "inputEnabled"; "version"].
Proof.
  unfold expected_settings, settings_record.
  rewrite !list_to_map_cons, list_to_map_nil, !dom_insert_L, dom_empty_L.
  simpl. set_solver.
Qed.

Lemma stored_field_record m c p i ver k :
  stored_field (VObj (settings_record m c p i ver)) k = settings_record m c p i ver !! k.
Proof. reflexivity. Qed.

Lemma expected_settings_idem ver v :
  expected_settings ver (VObj (expected_settings ver v)) = expected_settings ver v.
Proof.
  unfold expected_settings at 1 3. unfold expected_settings.
  rewrite !stored_field_record, !settings_record_lookup.
  repeat (case_decide; [simplify_eq|]); try done.
Qed.

(** C1.  Whatever sits under [unlockSettings] -- nothing at all, [null], a
    primitive, an array, an object with missing or wrongly typed fields --
    [Storage.getSettings], once the storage read has answered, returns,
    without touching the world, an object whose keys are exactly the four
    flags and [version]; each flag is the stored field when that field is a
    boolean and its default otherwise ([mainEnabled] false, the other three
    true), and [version] is the script's constant.  ([v] is what the read
    yields: the stored value, or [undefined].) *)
Theorem getSettings_validates (w : chrome) (v : value) :
  storage_fault w = None →
  default VUndefined (unlockSettings (local w)) = v →
  ∃ r, Content.Storage_getSettings w = (Returned r, w)
     ∧ dom r = list_to_set ["mainEnabled"; "copyEnabled"; "pasteEnabled"; "inputEnabled"; "version"]
     ∧ r !! "mainEnabled" = Some (VBool (flag_or false (stored_field v "mainEnabled")))
     ∧ r !! "copyEnabled" = Some (VBool (flag_or true (stored_field v "copyEnabled")))
     ∧ r !! "pasteEnabled" = Some (VBool (flag_or true (stored_field v "pasteEnabled")))
     ∧ r !! "inputEnabled" = Some (VBool (flag_or true (stored_field v "inputEnabled")))
     ∧ r !! "version" = Some (VStr Content.VERSION).
Proof.
  intros Hok Hv. exists (expected_settings Content.VERSION v). split.
  - unfold Content.Storage_getSettings, try_catch, bind, storage_local_get, api_call, ret.
    rewrite Hok, Hv. by rewrite content_validate_expected.
  - split; [apply expected_settings_dom|].
    unfold expected_settings. rewrite !settings_record_lookup. repeat split; reflexivity.
Qed.

Lemma getSettings_validates_witness :
  storage_fault Examples.partial_world = None
  ∧ default VUndefined (unlockSettings (local Examples.partial_world)) = Examples.partial_settings
  ∧ ∃ r, Content.Storage_getSettings Examples.partial_world = (Returned r, Examples.partial_world)
       ∧ dom r = list_to_set ["mainEnabled"; "copyEnabled"; "pasteEnabled"; "inputEnabled"; "version"]
       ∧ r !! "mainEnabled" = Some (VBool (flag_or false (stored_field Examples.partial_settings "mainEnabled")))
       ∧ r !! "copyEnabled" = Some (VBool (flag_or true (stored_field Examples.partial_settings "copyEnabled")))
       ∧ r !! "pasteEnabled" = Some (VBool (flag_or true (stored_field Examples.partial_settings "pasteEnabled")))
       ∧ r !! "inputEnabled" = Some (VBool (flag_or true (stored_field Examples.partial_settings "inputEnabled")))
       ∧ r !! "version" = Some (VStr Content.VERSION).
Proof.
  split; [reflexivity|]. split; [reflexivity|].
  apply (getSettings_validates Examples.partial_world Examples.partial_settings); reflexivity.
Defined.

(** When the storage read fails instead, the error is logged and the
    defaults are returned. *)
Lemma getSettings_fault (w : chrome) (e : exn) :
  storage_fault w = Some e →
  Content.Storage_getSettings w =
    (Returned Content.DEFAULT_SETTINGS,
     add_console
       (LogEntry LevelError
          [LText Content.prefix; LText "Failed to get settings from storage:"; LExn e])
       w).
Proof.
  intros Hf.
  unfold Content.Storage_getSettings, try_catch, bind, storage_local_get, api_call.
  rewrite Hf. reflexivity.
Qed.

(** The two validators are the same function. *)
Lemma validateSettings_agree v :
  Content.validateSettings v = Background.validateSettings Content.VERSION v.
Proof. by rewrite content_validate_expected, background_validate_expected. Qed.

(** The same reading of the stored value by the background script. *)
Lemma background_getSettings ver pre w :
  storage_fault w = None →
  Background.Storage_getSettings ver pre w =
    (Returned (expected_settings ver (default VUndefined (unlockSettings (local w)))), w).
Proof.
  intros Hok.
  unfold Background.Storage_getSettings, try_catch, bind, storage_local_get, api_call, ret.
  by rewrite Hok, background_validate_expected.
Qed.

(** [IconManager.update] returns normally whatever the badge API does, and
    leaves storage alone. *)
Lemma IconManager_update_returns pre enabled w :
  ∃ w', Background.IconManager_update pre enabled w = (Returned tt, w')
      ∧ local w' = local w ∧ storage_fault w' = storage_fault w
      ∧ timeouts w' = timeouts w ∧ sent w' = sent w.
Proof.
  unfold Background.IconManager_update, try_catch, bind, action_setBadgeText,
    action_setBadgeBackgroundColor, api_call, Background.Logger_log, Background.DEBUG,
    Background.Logger_error, console_error, modify, ret.
  destruct (action_fault w) eqn:E; simpl; [eauto 10|].
  rewrite E. simpl. eauto 10.
Qed.

Lemma saveSettings_stores ver pre s w :
  storage_fault w = None →
  ∃ w', Background.Storage_saveSettings ver pre s w = (Returned true, w')
      ∧ storage_fault w' = None
      ∧ unlockSettings (local w') = Some (VObj (Background.validateSettings ver s))
      ∧ siteSettings (local w') = siteSettings (local w)
      ∧ notifiedSites (local w') = notifiedSites (local w).
Proof.
  intros Hok.
  unfold Background.Storage_saveSettings, try_catch, bind at 1, storage_local_set, api_call.
  rewrite Hok. unfold modify at 1. unfold bind.
  destruct (IconManager_update_returns pre
              (get_prop_obj (Background.validateSettings ver s) "mainEnabled")
              (set_local (put_unlockSettings (VObj (Background.validateSettings ver s))) w))
    as (w' & -> & Hl & Hf & _).
  exists w'. simpl in *. rewrite Hl, Hf. auto.
Qed.

(** C2.  With the storage API answering, [Storage.saveSettings(s)] succeeds
    for every [s] and a following [Storage.getSettings] returns exactly
    [validateSettings(s)]; and [validateSettings] is idempotent, so a
    validated record saved and read back is unchanged. *)
Theorem save_then_get_settings (ver pre : string) (s : value) (w : chrome) :
  storage_fault w = None →
  ∃ w1, Background.Storage_saveSettings ver pre s w = (Returned true, w1)
      ∧ Background.Storage_getSettings ver pre w1
          = (Returned (Background.validateSettings ver s), w1)
      ∧ Background.validateSettings ver (VObj (Background.validateSettings ver s))
          = Background.validateSettings ver s.
Proof.
  intros Hok.
  destruct (saveSettings_stores ver pre s w Hok) as (w1 & Hsave & Hok1 & Hst & _).
  exists w1. split; [done|]. split.
  - rewrite background_getSettings by done. rewrite Hst. simpl.
    by rewrite !background_validate_expected, expected_settings_idem.
  - by rewrite !background_validate_expected, expected_settings_idem.
Qed.

Lemma save_then_get_settings_witness :
  storage_fault Examples.partial_world = None
  ∧ ∃ w1, Background.Storage_saveSettings Background.VERSION_8_1 Background.prefix_8_1
            Examples.partial_settings Examples.partial_world = (Returned true, w1)
        ∧ Background.Storage_getSettings Background.VERSION_8_1 Background.prefix_8_1 w1
            = (Returned (Background.validateSettings Background.VERSION_8_1 Examples.partial_settings), w1)
        ∧ Background.validateSettings Background.VERSION_8_1
            (VObj (Background.validateSettings Background.VERSION_8_1 Examples.partial_settings))
            = Background.validateSettings Background.VERSION_8_1 Examples.partial_settings.
Proof.
  split; [reflexivity|].
  apply (save_then_get_settings Background.VERSION_8_1 Background.prefix_8_1
           Examples.partial_settings Examples.partial_world).
  reflexivity.
Defined.

(** C3.  For every function [fn], receiver and argument list, the function
    [ErrorHandler.wrap(fn, context)] returns what [fn] returns, in the world
    [fn] leaves, when [fn] returns; and when [fn] throws it returns
    [undefined] -- it never throws itself -- in the world [fn] left at the
    throw, changed by one [console.error] line and nothing else. *)
Theorem wrap_returns_or_logs {St : Type} (pre : string)
    (fn : value → list value → M (ErrorHandler.world (St := St)) value)
    (context : string) (this : value) (args : list value)
    (w : ErrorHandler.world (St := St)) :
  match fn this args w with
  | (Returned v, w') =>
      ErrorHandler.wrap pre fn context this args w = (Returned v, w')
  | (Thrown e, (log, st)) =>
      ErrorHandler.wrap pre fn context this args w
      = (Returned VUndefined,
         ((log ++ [LogEntry LevelError
                     [LText pre; LText ("Error in " +:+ context +:+ ":"); LExn e]])%list,
          st))
  end.
Proof.
  unfold ErrorHandler.wrap, try_catch.
  destruct (fn this args w) as [[v|e] [log st]]; reflexivity.
Qed.

(** The wrapper never throws. *)
Lemma wrap_never_throws {St : Type} (pre : string)
    (fn : value → list value → M (ErrorHandler.world (St := St)) value)
    context this args w :
  ∃ v w', ErrorHandler.wrap pre fn context this args w = (Returned v, w').
Proof.
  pose proof (wrap_returns_or_logs pre fn context this args w) as H.
  destruct (fn this args w) as [[v|e] [log st]]; eauto.
Qed.

Example wrap_picky_throw :
  ErrorHandler.wrap "[UnlockIt]" Examples.picky "demo" VUndefined [] ([], 0)
  = (Returned VUndefined,
     ([LogEntry LevelError
         [LText "[UnlockIt]"; LText "Error in demo:";
          LExn (JsError "TypeError" "no argument")]], 1)).
Proof. reflexivity. Qed.

Example wrap_picky_return :
  ErrorHandler.wrap "[UnlockIt]" Examples.picky "demo" VUndefined [VNum 7] ([], 0)
  = (Returned (VNum 7), ([], 1)).
Proof. reflexivity. Qed.


Example dispatch_wenku :
  Content.enableFeatures_dispatch "wenku.baidu.com" = [Content.SiteHandlers_call Content.baiduwenku].
Proof. reflexivity. Qed.

Example dispatch_two_matches :
  Content.PageDetector_detect "csdn.net.zhihu.com" = [Content.csdn; Content.zhihu]
  ∧ Content.enableFeatures_dispatch "csdn.net.zhihu.com" = [Content.SiteHandlers_call Content.csdn].
Proof. split; reflexivity. Qed.

Example dispatch_upper_case :
  Content.enableFeatures_dispatch "DOCS.FEISHU.CN" = [Content.SiteHandlers_call Content.feishu].
Proof. reflexivity. Qed.

(** [juejin] and [baidu] are in the table but have no handler: such pages
    get the generic path. *)
Example dispatch_juejin :
  Content.PageDetector_detect "juejin.cn" = [Content.juejin]
  ∧ Content.enableFeatures_dispatch "juejin.cn" = generic_path.
Proof. split; reflexivity. Qed.

Example dispatch_other :
  Content.enableFeatures_dispatch "example.org" = generic_path.
Proof. reflexivity. Qed.

(** ** Per-site settings *)

Lemma getSiteSettings_healthy pre h w :
  storage_fault w = None →
  Background.getSiteSettings pre h w =
    (Returned (let found := get_prop_obj (default ∅ (siteSettings (local w))) h in
               if truthy_js found then found else Data VNull), w).
Proof.
  intros Hok.
  unfold Background.getSiteSettings, try_catch, bind, storage_local_get, api_call, ret.
  by rewrite Hok.
Qed.

(** For a hostname that is not the name of a member of [Object.prototype],
    [getEffectiveSettings] does what is expected of it: without a stored
    override the global settings plus [hasSiteSpecificSettings = false]. *)
Lemma getEffectiveSettings_no_override ver pre h w :
  storage_fault w = None →
  h ∉ Object_prototype →
  default ∅ (siteSettings (local w)) !! h = None →
  Background.getEffectiveSettings ver pre h w =
    (Returned (<["hasSiteSpecificSettings" := VBool false]>
                 (expected_settings ver (default VUndefined (unlockSettings (local w))))), w).
Proof.
  intros Hok Hh Hnone.
  unfold Background.getEffectiveSettings, bind.
  rewrite background_getSettings, getSiteSettings_healthy by done.
  unfold get_prop_obj. rewrite Hnone, bool_decide_eq_false_2 by done. reflexivity.
Qed.

(** With a stored override (an object), every field of the override
    replaces the global one, and [hasSiteSpecificSettings = true]. *)
Lemma getEffectiveSettings_override ver pre h w o :
  storage_fault w = None →
  default ∅ (siteSettings (local w)) !! h = Some (VObj o) →
  Background.getEffectiveSettings ver pre h w =
    (Returned (<["hasSiteSpecificSettings" := VBool true]>
                 (o ∪ expected_settings ver (default VUndefined (unlockSettings (local w))))), w).
Proof.
  intros Hok Hsome.
  unfold Background.getEffectiveSettings, bind.
  rewrite background_getSettings, getSiteSettings_healthy by done.
  unfold get_prop_obj. rewrite Hsome. reflexivity.
Qed.

(** C5 (failing input).  With nothing stored at all -- so no override for
    any hostname -- [getEffectiveSettings("constructor")] answers
    [hasSiteSpecificSettings = true]: [allSiteSettings[hostname]] finds
    [Object.prototype.constructor] on the prototype chain of the empty
    object, which is truthy. *)
Theorem getEffectiveSettings_constructor :
  siteSettings (local (Examples.healthy Examples.empty_area)) = None
  ∧ ∃ r, Background.getEffectiveSettings Background.VERSION_8_0 Background.prefix_8_0
           "constructor" (Examples.healthy Examples.empty_area)
         = (Returned r, Examples.healthy Examples.empty_area)
       ∧ r !! "hasSiteSpecificSettings" = Some (VBool true).
Proof.
  split; [reflexivity|].
  eexists. split.
  - unfold Background.getEffectiveSettings, bind.
    rewrite background_getSettings, getSiteSettings_healthy by reflexivity.
    reflexivity.
  - apply lookup_insert_eq.
Qed.

(** ** Debouncing *)

Section DebounceFacts.
Context {A : Type} (delay : nat).
Import Debounce.
Implicit Types (s : state (A := A)) (es : list (event (A := A))).

Lemma clearTimeout_one s :
  one_timer s → clearTimeout (timeoutId s) (pending s) = [].
Proof.
  intros [-> | (t & -> & ->)]; [by destruct (timeoutId s)|].
  simpl. by rewrite Nat.eqb_refl.
Qed.

Lemma debounced_pending args s :
  one_timer s →
  pending (debounced delay args s) = [Timer (next_id s) (now s + delay) args].
Proof. intros H. unfold debounced. simpl. by rewrite clearTimeout_one. Qed.

Lemma fire_inv id s s' :
  one_timer s → fire id s = Some s' →
  ∃ t, pending s = [t] ∧ timer_id t = id ∧ due t ≤ now s
     ∧ pending s' = [] ∧ applied s' = applied s ++ [captured t]
     ∧ now s' = now s ∧ timeoutId s' = timeoutId s.
Proof.
  intros [Hp | (t & Hp & Hid)]; unfold fire; rewrite Hp; simpl; [done|].
  destruct (timer_id t =? id) eqn:E; [|done].
  destruct (due t <=? now s) eqn:D; [|done].
  apply Nat.leb_le in D. apply Nat.eqb_eq in E. intros [= <-]. simpl.
  exists t. done.
Qed.

Lemma step_one_timer s e s' :
  one_timer s → step delay s e = Some s' → one_timer s'.
Proof.
  intros H. destruct e as [args | d | id]; simpl.
  - intros [= <-]. right. eexists. split; [by apply debounced_pending|done].
  - intros [= <-]. exact H.
  - intros Hf. destruct (fire_inv _ _ _ H Hf) as (t & _ & _ & _ & Hp & _). by left.
Qed.

Lemma run_one_timer es s s' :
  one_timer s → run delay s es = Some s' → one_timer s'.
Proof.
  revert s. induction es as [|e es IH]; intros s H; simpl.
  - by intros [= <-].
  - destruct (step delay s e) as [s1|] eqn:E; [|done].
    apply IH. by eapply step_one_timer.
Qed.

Lemma standing_one_timer since cur s : standing delay since cur s → one_timer s.
Proof.
  destruct since, cur; simpl; try done.
  - intros [(id & due & Hp & Hid & _) | (Hp & _)]; [right|by left].
    eexists. by split.
  - intros [Hp _]. by left.
Qed.

Lemma run_standing es : ∀ s s' since cur,
  standing delay since cur s →
  run delay s es = Some s' →
  spaced delay since es = true →
  ∃ since',
    standing delay since' (match last_invoke es with Some b => Some b | None => cur end) s'.
Proof.
  induction es as [|e es IH]; intros s s' since cur Hst Hrun Hsp.
  - simpl in *. injection Hrun as <-. by exists since.
  - simpl in Hrun. destruct (step delay s e) as [s1|] eqn:E; [|done].
    pose proof (standing_one_timer _ _ _ Hst) as Hone.
    destruct e as [args | d | id]; simpl in E, Hsp; simpl last_invoke.
    + injection E as <-. apply andb_prop in Hsp as [Hg Hsp].
      destruct (IH (debounced delay args s) s' (Some 0) (Some args)) as [since' H];
        try done; [|exists since'; by destruct (last_invoke es)].
      unfold standing. left. exists (next_id s), (now s + delay).
      split; [by apply debounced_pending|]. simpl.
      split; [done|]. split; [lia|].
      destruct since as [g|], cur as [c|]; simpl in Hst; try done.
      * destruct Hst as [(? & ? & _ & _ & _ & Ha) | (_ & _ & Hge)]; [done|].
        apply Nat.ltb_lt in Hg. lia.
      * by destruct Hst.
    + injection E as <-.
      apply (IH (wait d s) s' ((λ g, g + d) <$> since) cur); try done.
      destruct since as [g|], cur as [c|]; simpl in *; try done.
      destruct Hst as [(id & due & Hp' & Hid & Hd & Ha) | (Hp' & Ha & Hge)].
      * left. exists id, due. repeat split; try done. lia.
      * right. repeat split; try done. lia.
    + destruct (fire_inv _ _ _ Hone E) as (t & Hpt & Hidt & Hdue & Hp1 & Ha1 & Hnow & _).
      apply (IH s1 s' since cur); try done.
      destruct since as [g|], cur as [c|]; simpl in *; try done.
      * destruct Hst as [(id' & due' & Hp' & Hid & Hd & Ha) | (Hp' & _)]; [|congruence].
        right. rewrite Hpt in Hp'. injection Hp' as ->. simpl in *.
        rewrite Ha1, Ha. repeat split; try done. lia.
      * destruct Hst as [Hp' _]. congruence.
Qed.

Lemma init_standing : standing delay None None (init (A := A)).
Proof. by split. Qed.

(** A pending timer can always be run once its time has come. *)
Lemma pending_can_fire s t :
  pending s = [t] →
  run delay s [Wait (due t - now s); Fire (timer_id t)]
  = Some (State (now s + (due t - now s)) (next_id s) [] (timeoutId s)
                (applied s ++ [captured t])).
Proof.
  intros Hp. simpl. unfold fire, wait. simpl. rewrite Hp. simpl.
  rewrite Nat.eqb_refl. simpl.
  destruct (due t <=? now s + (due t - now s)) eqn:D; [done|].
  apply Nat.leb_gt in D. lia.
Qed.

End DebounceFacts.

(** C6.  In every history of a function made by [Utils.debounce(fn, delay)]
    -- invocations, passing time, the host running due timers -- at most one
    timer is pending, and an invocation leaves exactly one: the old one is
    cancelled and a new one is due [delay] later.  When every invocation
    comes less than [delay] after the one before, then: as long as a timer is
    pending [fn] has not run, that timer carries the arguments of the last
    invocation, and the host can run it once it is due; and once no timer
    is pending [fn] has run exactly once, with the arguments of the last
    invocation. *)
Theorem debounce_runs_last_once {A : Type} (delay : nat)
    (es : list (Debounce.event (A := A))) (s : Debounce.state (A := A)) :
  Debounce.run delay Debounce.init es = Some s →
  length (Debounce.pending s) ≤ 1
  ∧ (∀ args, Debounce.pending (Debounce.debounced delay args s)
             = [Debounce.Timer (Debounce.next_id s) (Debounce.now s + delay) args])
  ∧ (Debounce.spaced delay None es = true →
     ∀ a, Debounce.last_invoke es = Some a →
       (Debounce.pending s = [] → Debounce.applied s = [a])
       ∧ (∀ t, Debounce.pending s = [t] →
            Debounce.applied s = [] ∧ Debounce.captured t = a
            ∧ ∃ s', Debounce.run delay s
                      [Debounce.Wait (Debounce.due t - Debounce.now s);
                       Debounce.Fire (Debounce.timer_id t)] = Some s'
                  ∧ Debounce.pending s' = [] ∧ Debounce.applied s' = [a])).
Proof.
  intros Hrun.
  assert (Debounce.one_timer s) as Hone.
  { eapply run_one_timer; [|exact Hrun]. by left. }
  split; [|split].
  - destruct Hone as [-> | (t & -> & _)]; simpl; lia.
  - intros args. by apply debounced_pending.
  - intros Hsp a Hlast.
    destruct (run_standing delay es _ _ None None (init_standing delay) Hrun Hsp) as [since' Hst].
    rewrite Hlast in Hst.
    destruct since' as [g|]; simpl in Hst; [|done].
    destruct Hst as [(id & due & Hp & Hid & Hd & Ha) | (Hp & Ha & Hge)].
    + split; [congruence|]. intros t Ht. rewrite Hp in Ht. injection Ht as <-.
      split; [done|]. split; [done|].
      eexists. split; [by apply pending_can_fire|]. simpl. by rewrite Ha.
    + split; [done|]. intros t Ht. congruence.
Qed.

Lemma debounce_runs_last_once_witness :
  Debounce.run 100 Debounce.init
    [Debounce.Invoke 1; Debounce.Wait 50; Debounce.Invoke 2; Debounce.Wait 99;
     Debounce.Invoke 3; Debounce.Wait 100; Debounce.Fire 3]
  = Some (Debounce.State 249 4 [] (Some 3) [3])
  ∧ length (Debounce.pending (Debounce.State 249 4 [] (Some 3) [3])) ≤ 1
  ∧ Debounce.applied (Debounce.State 249 4 [] (Some 3) [3]) = [3].
Proof.
  split; [reflexivity|].
  destruct (debounce_runs_last_once 100
              [Debounce.Invoke 1; Debounce.Wait 50; Debounce.Invoke 2; Debounce.Wait 99;
               Debounce.Invoke 3; Debounce.Wait 100; Debounce.Fire 3]
              (Debounce.State 249 4 [] (Some 3) [3]) eq_refl) as (H1 & _ & H3).
  split; [exact H1|].
  destruct (H3 eq_refl 3 eq_refl) as [H _]. apply H. reflexivity.
Defined.

(** The timers of the cancelled invocations cannot be run: a history that
    asks for one has no outcome. *)
Example debounce_cancelled_timer :
  Debounce.run 100 Debounce.init
    [Debounce.Invoke 1; Debounce.Wait 50; Debounce.Invoke 2; Debounce.Wait 100;
     Debounce.Fire 1] = None.
Proof. reflexivity. Qed.

(** Without the spacing, [fn] runs once per burst. *)
Example debounce_two_bursts :
  Debounce.applied <$>
    Debounce.run 100 Debounce.init
      [Debounce.Invoke 1; Debounce.Wait 100; Debounce.Fire 1;
       Debounce.Invoke 2; Debounce.Wait 100; Debounce.Fire 2]
  = Some [1; 2].
Proof. reflexivity. Qed.

(** ** The mutation queue *)

Lemma is_type_eq a b : Content.is_type a b = true ↔ a = b.
Proof. destruct a, b; simpl; split; congruence. Qed.

Lemma truthy_getAttribute n name :
  truthy (Content.getAttribute n name) = true
  ↔ ∃ v, Content.attrs n !! name = Some v ∧ v ≠ EmptyString.
Proof.
  unfold Content.getAttribute.
  destruct (Content.attrs n !! name) as [v|]; simpl.
  - rewrite negb_true_iff. split.
    + intros H. exists v. split; [done|]. intros ->. by rewrite String.eqb_refl in H.
    + intros (v' & [= <-] & Hne). by apply String.eqb_neq.
  - split; [done|]. by intros (? & ? & _).
Qed.

Lemma skipped_tag (t : option string) :
  bool_decide (toLowerCase <$> t = Some "script")
  || bool_decide (toLowerCase <$> t = Some "style")
  || bool_decide (toLowerCase <$> t = Some "link") = true
  ↔ ∃ tag, t = Some tag ∧ toLowerCase tag ∈ ["script"; "style"; "link"].
Proof.
  rewrite !orb_true_iff, !bool_decide_eq_true. split.
  - destruct t as [tag|]; simpl; [|intros [[?|?]|?]; done].
    intros [[[= H]|[= H]]|[= H]]; exists tag; rewrite H; split; set_solver.
  - intros (tag & -> & H). simpl.
    rewrite !elem_of_cons in H. destruct H as [->| [->| [->|H]]]; auto.
    by apply elem_of_nil in H.
Qed.

Lemma isValidMutation_false m : Content.isValidMutation m = false ↔ invalid m.
Proof.
  unfold Content.isValidMutation, invalid.
  destruct (Content.is_type (Content.type m) Content.characterData) eqn:Hc.
  { apply is_type_eq in Hc. tauto. }
  assert (Content.type m ≠ Content.characterData) as Hc'.
  { intros H. apply is_type_eq in H. congruence. }
  destruct (Content.nodeType (Content.target m) =? Content.ELEMENT_NODE) eqn:Hn; simpl.
  2: { apply Nat.eqb_neq in Hn. tauto. }
  apply Nat.eqb_eq in Hn.
  destruct (bool_decide _ || bool_decide _ || bool_decide _) eqn:Ht.
  { apply skipped_tag in Ht. tauto. }
  assert (¬ ∃ tag, Content.tagName (Content.target m) = Some tag
                 ∧ toLowerCase tag ∈ ["script"; "style"; "link"]) as Ht'.
  { intros H. apply skipped_tag in H. congruence. }
  destruct (Content.is_type (Content.type m) Content.attributes) eqn:Ha; simpl.
  - apply is_type_eq in Ha.
    destruct (truthy (Content.getAttribute (Content.target m) "data-unlock-processed")) eqn:Hp.
    + apply truthy_getAttribute in Hp. tauto.
    + split; [done|]. intros [?|[?|[?|[_ Hv]]]]; try done.
      apply truthy_getAttribute in Hv. congruence.
  - split; [done|]. intros [?|[?|[?|[Hty _]]]]; try done.
    apply is_type_eq in Hty. congruence.
Qed.

(** C7, as the code has it.  [isValidMutation] returns [false] exactly for
    mutations of type [characterData], mutations whose target is not an
    element, mutations of a [script], [style] or [link] element, and
    attribute mutations whose target has a [data-unlock-processed]
    attribute with a non-empty value; it returns [true] for every other
    mutation.  [handleMutations] appends to the pending queue exactly the
    mutations for which [isValidMutation] returns [true], in their order. *)
Theorem isValidMutation_exactly (m : Content.mutation)
    (mutations : list Content.mutation) (o : Content.observer) :
  (Content.isValidMutation m = false ↔ invalid m)
  ∧ (Content.isValidMutation m = true ↔ ¬ invalid m)
  ∧ Content.pendingMutations (Content.handleMutations mutations o)
    = Content.pendingMutations o ++ List.filter Content.isValidMutation mutations.
Proof.
  split; [apply isValidMutation_false|]. split.
  - rewrite <- isValidMutation_false. by destruct (Content.isValidMutation m).
  - unfold Content.handleMutations.
    destruct (List.filter Content.isValidMutation mutations) as [|v vs]; simpl.
    + by rewrite app_nil_r.
    + reflexivity.
Qed.

(** After [handleMutations] has queued something, a batch is scheduled:
    [batchTimer] names a pending timer of [THROTTLE_DELAY] milliseconds. *)
Lemma handleMutations_schedules mutations o :
  List.filter Content.isValidMutation mutations ≠ [] →
  ∃ id, Content.batchTimer (Content.handleMutations mutations o) = Some id
      ∧ (id, Content.THROTTLE_DELAY) ∈ Content.timers (Content.handleMutations mutations o).
Proof.
  intros Hne. unfold Content.handleMutations.
  destruct (List.filter Content.isValidMutation mutations) as [|v vs]; [done|]. simpl.
  exists (Content.next_timer o). split; [done|].
  apply elem_of_app. right. by apply list_elem_of_singleton.
Qed.

(** C7, as it is worded, fails: an attribute mutation whose target carries
    [data-unlock-processed] with an empty value is invalid in the words of the claim, and
    [isValidMutation] returns [true] for it. *)
Lemma isValidMutation_empty_marker :
  ¬ (Content.isValidMutation Examples.empty_marker = false
     ↔ claimed_invalid Examples.empty_marker).
Proof.
  intros [_ H]. enough (Content.isValidMutation Examples.empty_marker = false) by done.
  apply H. right. right. right. split; [reflexivity|]. by eexists.
Qed.

(** Induction on trees. *)
Lemma node_tree_ind (P : Content.node → Prop) :
  (∀ i t tag a cs, Forall P cs → P (Content.Node i t tag a cs)) →
  ∀ n, P n.
Proof.
  intros H. fix IH 1. intros [i t tag a cs]. apply H.
  induction cs as [|c cs IHcs]; constructor; [apply IH | apply IHcs].
Qed.

Lemma querySelectorAll_star_unfold i t tag a cs :
  Content.querySelectorAll_star (Content.Node i t tag a cs)
  = flat_map (λ c, (if Content.is_element c then [c] else [])
                     ++ Content.querySelectorAll_star c) cs.
Proof.
  simpl. induction cs as [|c cs IH]; [done|].
  simpl. rewrite IH. by rewrite <- app_assoc.
Qed.

Lemma descendant_inv n e :
  descendant n e →
  ∃ c, c ∈ Content.childNodes n ∧ (e = c ∨ descendant c e).
Proof. intros [n' c Hc | n' c e' Hc Hd]; eauto. Qed.

Lemma elem_of_querySelectorAll_star n e :
  e ∈ Content.querySelectorAll_star n
  ↔ descendant n e ∧ Content.nodeType e = Content.ELEMENT_NODE.
Proof.
  revert e. induction n as [i t tag a cs IH] using node_tree_ind. intros e.
  rewrite querySelectorAll_star_unfold, list_elem_of_In, in_flat_map.
  split.
  - intros (c & Hc & He). apply list_elem_of_In in Hc, He.
    rewrite Forall_forall in IH. apply elem_of_app in He as [He | He].
    + unfold Content.is_element in He.
      destruct (Content.nodeType c =? Content.ELEMENT_NODE) eqn:E;
        [|by apply elem_of_nil in He].
      apply list_elem_of_singleton in He as ->. apply Nat.eqb_eq in E.
      split; [by constructor|done].
    + apply (IH c Hc) in He as [Hd Ht]. split; [|done].
      by eapply descendant_below.
  - intros [Hd Ht]. apply descendant_inv in Hd as (c & Hc & Hce). simpl in Hc.
    exists c. split; [by apply list_elem_of_In|].
    apply list_elem_of_In, elem_of_app. destruct Hce as [-> | Hd].
    + left. unfold Content.is_element. apply Nat.eqb_eq in Ht. rewrite Ht. set_solver.
    + right. rewrite Forall_forall in IH. by apply (IH c Hc).
Qed.

(** [Set.prototype.add], by node identity. *)
Lemma set_add_ids acc n i :
  i ∈ Content.nid <$> Content.set_add acc n
  ↔ i ∈ Content.nid <$> acc ∨ i = Content.nid n.
Proof.
  unfold Content.set_add.
  destruct (existsb _ acc) eqn:E.
  - split; [auto|]. intros [H | ->]; [done|].
    apply existsb_exists in E as (x & Hx & Heq).
    apply Nat.eqb_eq in Heq. rewrite <- Heq.
    apply list_elem_of_fmap_2. by apply list_elem_of_In.
  - rewrite fmap_app, elem_of_app. simpl. by rewrite list_elem_of_singleton.
Qed.

Lemma set_add_NoDup acc n :
  NoDup (Content.nid <$> acc) → NoDup (Content.nid <$> Content.set_add acc n).
Proof.
  intros Hnd. unfold Content.set_add.
  destruct (existsb _ acc) eqn:E; [done|].
  rewrite fmap_app. apply NoDup_app. split; [done|]. split.
  - intros i Hi Hin. simpl in Hin. apply list_elem_of_singleton in Hin as ->.
    apply list_elem_of_fmap in Hi as (x & Hx & Hin).
    assert (existsb (λ y, Content.nid y =? Content.nid n) acc = true) as E'; [|congruence].
    apply existsb_exists. exists x. split; [by apply list_elem_of_In|].
    apply Nat.eqb_eq. done.
  - simpl. apply NoDup_singleton.
Qed.

Lemma foldl_set_add_ids xs : ∀ acc i,
  i ∈ Content.nid <$> foldl Content.set_add acc xs
  ↔ i ∈ Content.nid <$> acc ∨ i ∈ Content.nid <$> xs.
Proof.
  induction xs as [|x xs IH]; intros acc i; simpl.
  - rewrite elem_of_nil. tauto.
  - rewrite IH, set_add_ids, elem_of_cons. tauto.
Qed.

Lemma foldl_set_add_NoDup xs : ∀ acc,
  NoDup (Content.nid <$> acc) → NoDup (Content.nid <$> foldl Content.set_add acc xs).
Proof.
  induction xs as [|x xs IH]; intros acc H; simpl; [done|].
  by apply IH, set_add_NoDup.
Qed.

Lemma collect_added_ids acc n i :
  i ∈ Content.nid <$> Content.collect_added acc n
  ↔ i ∈ Content.nid <$> acc
    ∨ (Content.nodeType n = Content.ELEMENT_NODE
       ∧ ∃ e, Content.nid e = i
            ∧ (e = n ∨ (descendant n e ∧ Content.nodeType e = Content.ELEMENT_NODE))).
Proof.
  unfold Content.collect_added.
  destruct (Content.nodeType n =? Content.ELEMENT_NODE) eqn:E.
  - apply Nat.eqb_eq in E. rewrite foldl_set_add_ids, set_add_ids. split.
    + intros [[H | ->] | H]; [by left | right; split; [done|]; eauto |].
      apply list_elem_of_fmap in H as (e & -> & He).
      apply elem_of_querySelectorAll_star in He.
      right. split; [done|]. eauto.
    + intros [H | (_ & e & <- & [-> | Hd])]; [auto | auto |].
      right. apply list_elem_of_fmap_2. by apply elem_of_querySelectorAll_star.
  - apply Nat.eqb_neq in E. split; [auto|]. intros [H | [H _]]; done.
Qed.

Lemma collect_added_NoDup acc n :
  NoDup (Content.nid <$> acc) → NoDup (Content.nid <$> Content.collect_added acc n).
Proof.
  intros H. unfold Content.collect_added. destruct (_ =? _); [|done].
  by apply foldl_set_add_NoDup, set_add_NoDup.
Qed.

Lemma foldl_added_ids ns : ∀ acc i,
  i ∈ Content.nid <$> foldl Content.collect_added acc ns
  ↔ i ∈ Content.nid <$> acc
    ∨ ∃ n e, n ∈ ns ∧ Content.nodeType n = Content.ELEMENT_NODE ∧ Content.nid e = i
           ∧ (e = n ∨ (descendant n e ∧ Content.nodeType e = Content.ELEMENT_NODE)).
Proof.
  induction ns as [|n ns IH]; intros acc i; simpl.
  - split; [auto|]. intros [H | (n & e & Hn & _)]; [done|]. by apply elem_of_nil in Hn.
  - rewrite IH, collect_added_ids. split.
    + intros [[H | (Ht & e & He & Hc)] | (n' & e & Hn & H)]; [by left | |].
      * right. exists n, e. rewrite elem_of_cons. auto.
      * right. exists n', e. rewrite elem_of_cons. auto.
    + intros [H | (n' & e & Hn & Ht & He & Hc)]; [auto|].
      apply elem_of_cons in Hn as [-> | Hn].
      * left. right. eauto.
      * right. eauto 10.
Qed.

Lemma foldl_added_NoDup ns : ∀ acc,
  NoDup (Content.nid <$> acc) → NoDup (Content.nid <$> foldl Content.collect_added acc ns).
Proof.
  induction ns as [|n ns IH]; intros acc H; simpl; [done|].
  by apply IH, collect_added_NoDup.
Qed.

Lemma collect_ids acc m i :
  i ∈ Content.nid <$> Content.collect acc m
  ↔ i ∈ Content.nid <$> acc ∨ ∃ e, Content.nid e = i ∧ to_process [m] e.
Proof.
  unfold Content.collect, to_process.
  destruct (Content.type m) eqn:Ht; simpl.
  - rewrite set_add_ids. split.
    + intros [H | ->]; [auto|]. right. exists (Content.target m). split; [done|].
      right. exists m. rewrite list_elem_of_singleton. auto.
    + intros [H | (e & <- & [(m' & n & Hm & Hty & _) | (m' & Hm & _ & ->)])]; [auto | |].
      * apply list_elem_of_singleton in Hm as ->. congruence.
      * apply list_elem_of_singleton in Hm as ->. auto.
    - split; [auto|].
      intros [H | (e & _ & [(m' & n & Hm & Hty & _) | (m' & Hm & Hty & _)])]; [done | |];
        apply list_elem_of_singleton in Hm as ->; congruence.
  - rewrite foldl_added_ids. split.
    + intros [H | (n & e & Hn & Hty & He & Hc)]; [auto|].
      right. exists e. split; [done|]. left. exists m, n.
      rewrite list_elem_of_singleton. auto.
    + intros [H | (e & He & [(m' & n & Hm & Hty & Hn & Hnt & Hc) | (m' & Hm & Hty & _)])];
        [auto | |]; apply list_elem_of_singleton in Hm as ->; [|congruence].
      right. eauto 10.
Qed.

Lemma collect_NoDup acc m :
  NoDup (Content.nid <$> acc) → NoDup (Content.nid <$> Content.collect acc m).
Proof.
  intros H. unfold Content.collect.
  destruct (Content.type m); simpl; [by apply set_add_NoDup | done |].
  by apply foldl_added_NoDup.
Qed.

Lemma foldl_collect_ids ms : ∀ acc i,
  i ∈ Content.nid <$> foldl Content.collect acc ms
  ↔ i ∈ Content.nid <$> acc ∨ ∃ e, Content.nid e = i ∧ to_process ms e.
Proof.
  induction ms as [|m ms IH]; intros acc i; simpl.
  - split; [auto|]. intros [H | (e & _ & [(m & n & Hm & _) | (m & Hm & _)])];
      [done | |]; by apply elem_of_nil in Hm.
  - rewrite IH, collect_ids. unfold to_process. split.
    + intros [[H | (e & He & [(m' & n & Hm & H) | (m' & Hm & H)])]
             | (e & He & [(m' & n & Hm & H) | (m' & Hm & H)])]; [by left | | | |].
      * apply list_elem_of_singleton in Hm as ->. right. exists e. split; [done|].
        left. exists m, n. rewrite elem_of_cons. auto.
      * apply list_elem_of_singleton in Hm as ->. right. exists e. split; [done|].
        right. exists m. rewrite elem_of_cons. auto.
      * right. exists e. split; [done|]. left. exists m', n. rewrite elem_of_cons. auto.
      * right. exists e. split; [done|]. right. exists m'. rewrite elem_of_cons. auto.
    + intros [H | (e & He & [(m' & n & Hm & H) | (m' & Hm & H)])]; [auto | |];
        apply elem_of_cons in Hm as [-> | Hm].
      * left. right. exists e. split; [done|]. left. exists m, n.
        rewrite list_elem_of_singleton. auto.
      * right. exists e. split; [done|]. left. eauto.
      * left. right. exists e. split; [done|]. right. exists m.
        rewrite list_elem_of_singleton. auto.
      * right. exists e. split; [done|]. right. eauto.
Qed.

Lemma foldl_collect_NoDup ms : ∀ acc,
  NoDup (Content.nid <$> acc) → NoDup (Content.nid <$> foldl Content.collect acc ms).
Proof.
  induction ms as [|m ms IH]; intros acc H; simpl; [done|].
  by apply IH, collect_NoDup.
Qed.

(** C8.  Every call of [batchProcess] leaves the queue empty, so a second
    call finds nothing to do and each queued mutation is counted, and
    handled, by one batch only.  On an empty queue the call changes
    nothing.  On a non-empty queue it makes one call of [processElements],
    on a list without repetition that holds exactly the elements to
    process: the element nodes added by the queued [childList] mutations,
    the elements below them, and the targets of the queued attribute
    mutations.  (Nodes are told apart by their identity [nid].) *)
Theorem batchProcess_consumes_queue (o : Content.observer) :
  Content.pendingMutations (Content.batchProcess o) = []
  ∧ Content.batchProcess (Content.batchProcess o) = Content.batchProcess o
  ∧ Content.processedMutations (Content.batchProcess o)
    = Content.processedMutations o + length (Content.pendingMutations o)
  ∧ match Content.pendingMutations o with
    | [] => Content.batchProcess o = o
    | _ :: _ =>
        ∃ batch,
          Content.processed (Content.batchProcess o) = Content.processed o ++ [batch]
          ∧ NoDup (Content.nid <$> batch)
          ∧ ∀ i, i ∈ Content.nid <$> batch
                 ↔ ∃ e, Content.nid e = i ∧ to_process (Content.pendingMutations o) e
    end.
Proof.
  unfold Content.batchProcess.
  destruct (Content.pendingMutations o) as [|m ms] eqn:Hq; simpl.
  - rewrite Hq. simpl. repeat split; try done.
  - repeat split; try done.
    exists (foldl Content.collect (Content.collect [] m) ms). split; [done|]. split.
    + apply (foldl_collect_NoDup (m :: ms) []). simpl. constructor.
    + intros i. rewrite (foldl_collect_ids (m :: ms) [] i). simpl.
      rewrite elem_of_nil. tauto.
Qed.

(** ** The notified-sites list *)

Lemma slice_last_length n (l : list value) : length (Background.slice_last n l) ≤ n.
Proof. unfold Background.slice_last. rewrite length_drop. lia. Qed.

(** [slice(-n)] keeps a suffix: the input is some prefix followed by it. *)
Lemma slice_last_suffix n (l : list value) :
  take (length l - n) l ++ Background.slice_last n l = l.
Proof. apply take_drop. Qed.

Lemma slice_last_short n (l : list value) : length l ≤ n → Background.slice_last n l = l.
Proof.
  intros H. unfold Background.slice_last.
  replace (length l - n) with 0 by lia. done.
Qed.

Lemma getSettings_total ver pre w :
  ∃ w', Background.Storage_getSettings ver pre w
        = (Returned (match storage_fault w with
                     | None => expected_settings ver
                                 (default VUndefined (unlockSettings (local w)))
                     | Some _ => Background.DEFAULT_SETTINGS ver
                     end), w')
      ∧ local w' = local w ∧ storage_fault w' = storage_fault w ∧ sent w' = sent w
      ∧ action_fault w' = action_fault w
      ∧ (storage_fault w = None → w' = w).
Proof.
  destruct (storage_fault w) as [e|] eqn:Hf.
  - unfold Background.Storage_getSettings, try_catch, bind, storage_local_get, api_call.
    rewrite Hf. simpl. eexists. split; [reflexivity|]. done.
  - rewrite background_getSettings by done. eexists. split; [reflexivity|]. done.
Qed.

Lemma getNotifiedSites_run w :
  Background.getNotifiedSites w =
    (Returned (match storage_fault w with
               | None => default [] (notifiedSites (local w))
               | Some _ => []
               end), w).
Proof.
  unfold Background.getNotifiedSites, try_catch, bind, storage_local_get, api_call, ret.
  by destruct (storage_fault w).
Qed.

Lemma saveNotifiedSites_run pre sites w :
  ∃ w', Background.saveNotifiedSites pre sites w = (Returned tt, w')
      ∧ storage_fault w' = storage_fault w ∧ sent w' = sent w
      ∧ action_fault w' = action_fault w
      ∧ local w' = match storage_fault w with
                   | None => put_notifiedSites (Background.slice_last 20 sites) (local w)
                   | Some _ => local w
                   end.
Proof.
  unfold Background.saveNotifiedSites, try_catch, storage_local_set, api_call,
    Background.Logger_error, console_error, modify.
  destruct (storage_fault w) eqn:Hf; simpl; rewrite ?Hf; eauto 10.
Qed.

Lemma showRestrictionNotification_run pre data w :
  ∃ w', Background.showRestrictionNotification pre data w = (Returned tt, w')
      ∧ storage_fault w' = storage_fault w ∧ sent w' = sent w ∧ local w' = local w.
Proof.
  unfold Background.showRestrictionNotification, try_catch, bind, action_setBadgeText,
    action_setBadgeBackgroundColor, api_call, setTimeout, Background.Logger_info,
    Background.Logger_error, console_info, console_error, modify.
  destruct (action_fault w) eqn:Hf; simpl; rewrite ?Hf; simpl; eauto 10.
Qed.

(** What [handleRestrictionDetected] does, case by case. *)
Lemma handleRestrictionDetected_run ver pre data w :
  ∃ w', Background.handleRestrictionDetected ver pre data w = (Returned tt, w')
      ∧ storage_fault w' = storage_fault w
      ∧ match storage_fault w with
        | Some _ =>
            local w' = local w ∧ sent w' = sent w ++ [notified_response]
        | None =>
            let old := default [] (notifiedSites (local w)) in
            if mainEnabled_stored (local w)
               || Background.includes old (Background.hostname data)
            then local w' = local w ∧ sent w' = sent w ++ [already_response]
            else local w' = put_notifiedSites
                              (Background.slice_last 20
                                 (old ++ [VStr (Background.hostname data)]))
                              (local w)
                 ∧ sent w' = sent w ++ [notified_response]
        end.
Proof.
  unfold Background.handleRestrictionDetected, try_catch.
  unfold bind at 1. unfold Background.Logger_log, Background.DEBUG, ret at 1.
  unfold bind at 1.
  destruct (getSettings_total ver pre w) as (w1 & -> & Hl1 & Hf1 & Hs1 & _ & Hok1).
  destruct (storage_fault w) as [e|] eqn:Hf.
  - (* storage unreadable: the defaults, and an empty list *)
    rewrite default_is_record. unfold get_prop_obj.
    rewrite settings_record_lookup. simpl.
    unfold bind at 1. rewrite getNotifiedSites_run, Hf1. simpl.
    unfold bind at 1.
    destruct (saveNotifiedSites_run pre [VStr (Background.hostname data)] w1)
      as (w2 & -> & Hf2 & Hs2 & _ & Hl2).
    unfold bind at 1.
    destruct (showRestrictionNotification_run pre data w2) as (w3 & -> & Hf3 & Hs3 & Hl3).
    unfold sendResponse, modify. eexists. split; [reflexivity|]. simpl.
    rewrite Hf3, Hf2, Hs3, Hs2, Hl3, Hl2, Hf1, Hl1, Hs1. done.
  - rewrite (Hok1 eq_refl). clear Hok1 Hl1 Hf1 Hs1 w1.
    unfold expected_settings at 1. unfold get_prop_obj.
    rewrite settings_record_lookup. simpl.
    fold (mainEnabled_stored (local w)).
    destruct (mainEnabled_stored (local w)) eqn:Hmain; simpl.
    + unfold sendResponse, modify. eexists. split; [reflexivity|]. simpl. by rewrite Hf.
    + unfold bind at 1. rewrite getNotifiedSites_run, Hf.
      destruct (Background.includes _ _) eqn:Hinc.
      * unfold sendResponse, modify. eexists. split; [reflexivity|]. simpl. by rewrite Hf.
      * unfold bind at 1.
        destruct (saveNotifiedSites_run pre
                    (default [] (notifiedSites (local w)) ++ [VStr (Background.hostname data)]) w)
          as (w2 & -> & Hf2 & Hs2 & _ & Hl2).
        unfold bind at 1.
        destruct (showRestrictionNotification_run pre data w2) as (w3 & -> & Hf3 & Hs3 & Hl3).
        unfold sendResponse, modify. eexists. split; [reflexivity|]. simpl.
        rewrite Hf3, Hf2, Hs3, Hs2, Hl3, Hl2, Hf. done.
Qed.

Lemma includes_elem_of (l : list value) h :
  Background.includes l h = true ↔ VStr h ∈ l.
Proof.
  unfold Background.includes. rewrite existsb_exists. split.
  - intros (x & Hx & Heq). apply list_elem_of_In in Hx.
    destruct x; simpl in Heq; try done. apply String.eqb_eq in Heq. by subst.
  - intros H. exists (VStr h). split; [by apply list_elem_of_In|].
    simpl. apply String.eqb_refl.
Qed.

(** C9.  [saveNotifiedSites] stores the last twenty elements of its
    argument (or, when the storage API fails, nothing).
    [handleRestrictionDetected] either leaves the storage as it is or
    stores the last twenty elements of the old list followed by the one
    hostname of the message, so a stored list of at most twenty entries
    stays one.  When the storage API answers and either [mainEnabled] is
    true or the hostname is already in the stored list, it answers
    [{success: true, notified: false}] and leaves the storage unchanged. *)
Theorem notifiedSites_at_most_20 (ver pre : string)
    (data : Background.restriction_message) (sites : list value) (w : chrome) :
  (∃ w1, Background.saveNotifiedSites pre sites w = (Returned tt, w1)
       ∧ (local w1 = local w
          ∨ local w1 = put_notifiedSites (Background.slice_last 20 sites) (local w))
       ∧ (storage_fault w = None →
          notifiedSites (local w1) = Some (Background.slice_last 20 sites))
       ∧ length (Background.slice_last 20 sites) ≤ 20
       ∧ take (length sites - 20) sites ++ Background.slice_last 20 sites = sites)
  ∧ ∃ w', Background.handleRestrictionDetected ver pre data w = (Returned tt, w')
        ∧ (local w' = local w
           ∨ local w' = put_notifiedSites
                          (Background.slice_last 20
                             (default [] (notifiedSites (local w))
                              ++ [VStr (Background.hostname data)]))
                          (local w))
        ∧ (length (default [] (notifiedSites (local w))) ≤ 20 →
           length (default [] (notifiedSites (local w'))) ≤ 20)
        ∧ (storage_fault w = None →
           mainEnabled_stored (local w) = true
           ∨ VStr (Background.hostname data) ∈ default [] (notifiedSites (local w)) →
           local w' = local w ∧ sent w' = sent w ++ [already_response]).
Proof.
  split.
  - destruct (saveNotifiedSites_run pre sites w) as (w1 & Hrun & _ & _ & _ & Hl).
    exists w1. split; [done|].
    split; [destruct (storage_fault w); auto|].
    split; [intros Hf; rewrite Hl, Hf; done|].
    split; [apply slice_last_length | apply slice_last_suffix].
  - destruct (handleRestrictionDetected_run ver pre data w) as (w' & Hrun & _ & Hcases).
    exists w'. split; [done|].
    assert (local w' = local w
            ∨ local w' = put_notifiedSites
                           (Background.slice_last 20
                              (default [] (notifiedSites (local w))
                               ++ [VStr (Background.hostname data)]))
                           (local w)) as Hlocal.
    { destruct (storage_fault w); [left; tauto|]. simpl in Hcases.
      destruct (_ || _); tauto. }
    split; [done|]. split.
    + intros Hold. destruct Hlocal as [-> | ->]; [done|]. simpl. apply slice_last_length.
    + intros Hf Hcond. rewrite Hf in Hcases. simpl in Hcases.
      destruct (mainEnabled_stored (local w)
                || Background.includes (default [] (notifiedSites (local w)))
                     (Background.hostname data)) eqn:E; [done|].
      apply orb_false_elim in E as [E1 E2].
      destruct Hcond as [H | H]; [congruence|].
      apply includes_elem_of in H. congruence.
Qed.

Lemma notifiedSites_at_most_20_witness :
  length (default [] (notifiedSites (local Examples.notified_world))) ≤ 20
  ∧ storage_fault Examples.notified_world = None
  ∧ VStr "site5" ∈ default [] (notifiedSites (local Examples.notified_world))
  ∧ ∃ w', Background.handleRestrictionDetected Background.VERSION_8_1 Background.prefix_8_1
            (Background.RestrictionMessage "site5" "http://site5/") Examples.notified_world
          = (Returned tt, w')
        ∧ length (default [] (notifiedSites (local w'))) ≤ 20
        ∧ local w' = local Examples.notified_world
        ∧ sent w' = sent Examples.notified_world ++ [already_response].
Proof.
  assert (VStr "site5" ∈ default [] (notifiedSites (local Examples.notified_world))) as Hin.
  { apply includes_elem_of. reflexivity. }
  split; [simpl; lia|]. split; [reflexivity|]. split; [exact Hin|].
  destruct (notifiedSites_at_most_20 Background.VERSION_8_1 Background.prefix_8_1
              (Background.RestrictionMessage "site5" "http://site5/") []
              Examples.notified_world) as (_ & w' & Hrun & _ & Hlen & Hsame).
  exists w'. split; [exact Hrun|].
  split; [apply Hlen; simpl; lia|].
  apply Hsame; [reflexivity | right; exact Hin].
Defined.

(** A twenty-first site pushes the oldest one out. *)
Example notifiedSites_rotation :
  ∃ w', Background.handleRestrictionDetected Background.VERSION_8_1 Background.prefix_8_1
          (Background.RestrictionMessage "fresh.example" "http://fresh.example/")
          Examples.notified_world = (Returned tt, w')
      ∧ notifiedSites (local w')
        = Some (drop 2 Examples.many_sites ++ [VStr "fresh.example"])
      ∧ sent w' = [notified_response].
Proof. eexists. split; [reflexivity|]. split; reflexivity. Qed.

(** ** The popup switches *)

Lemma field_on_bool o f b : o !! f = Some (VBool b) → field_on o f = b.
Proof. intros H. unfold field_on, get_prop_obj. by rewrite H. Qed.

Lemma toggled_field_cases key :
  (key = "main" ∧ toggled_field key = Some "mainEnabled")
  ∨ (key = "copy" ∧ toggled_field key = Some "copyEnabled")
  ∨ (key = "paste" ∧ toggled_field key = Some "pasteEnabled")
  ∨ (key = "input" ∧ toggled_field key = Some "inputEnabled")
  ∨ ((key ∉ ["main"; "copy"; "paste"; "input"]) ∧ toggled_field key = None
     ∧ String.eqb key "main" = false ∧ String.eqb key "copy" = false
     ∧ String.eqb key "paste" = false ∧ String.eqb key "input" = false).
Proof.
  unfold toggled_field.
  destruct (String.eqb key "main") eqn:E1; [apply String.eqb_eq in E1; auto|].
  destruct (String.eqb key "copy") eqn:E2; [apply String.eqb_eq in E2; auto|].
  destruct (String.eqb key "paste") eqn:E3; [apply String.eqb_eq in E3; auto 6|].
  destruct (String.eqb key "input") eqn:E4; [apply String.eqb_eq in E4; auto 6|].
  apply String.eqb_neq in E1 as N1, E2 as N2, E3 as N3, E4 as N4.
  do 4 right. rewrite !not_elem_of_cons. repeat split; try done. apply not_elem_of_nil.
Qed.

(** C10.  [State.toggle(key)] stores what it returns and never changes
    [isUpdating].  It changes no field but the one the key stands for
    ([mainEnabled] for ['main'], and so on), so [version] and the other
    flags keep their values.  With [isUpdating] set, or for a key other than
    the four, or for ['copy'], ['paste'], ['input'] while [mainEnabled] is
    off, it returns the settings unchanged.  Otherwise -- ['main'] always,
    the other three while [mainEnabled] is on -- the field of the key is
    flipped. *)
Theorem toggle_flips_one_field (key : string) (st : Popup.State) :
  Popup.settings (snd (Popup.toggle key st)) = fst (Popup.toggle key st)
  ∧ Popup.isUpdating (snd (Popup.toggle key st)) = Popup.isUpdating st
  ∧ (∀ k, toggled_field key ≠ Some k →
          fst (Popup.toggle key st) !! k = Popup.settings st !! k)
  ∧ (Popup.isUpdating st = true
     ∨ toggled_field key = None
     ∨ (key ≠ "main" ∧ field_on (Popup.settings st) "mainEnabled" = false) →
     Popup.toggle key st = (Popup.settings st, st))
  ∧ (Popup.isUpdating st = false →
     key = "main" ∨ field_on (Popup.settings st) "mainEnabled" = true →
     ∀ field, toggled_field key = Some field →
       fst (Popup.toggle key st) !! field
       = Some (VBool (negb (field_on (Popup.settings st) field)))).
Proof.
  destruct st as [o upd]. unfold Popup.toggle, Popup.not_field. simpl.
  fold (field_on o "mainEnabled") (field_on o "copyEnabled")
       (field_on o "pasteEnabled") (field_on o "inputEnabled").
  destruct upd; simpl.
  { repeat split; try done. }
  destruct (toggled_field_cases key)
    as [[-> Hf] | [[-> Hf] | [[-> Hf] | [[-> Hf] | (Hk & Hf & E1 & E2 & E3 & E4)]]]];
    rewrite ?E1, ?E2, ?E3, ?E4, Hf; simpl.
  5: { repeat split; try done. }
  all: destruct (field_on o "mainEnabled") eqn:Hm; simpl.
  all: repeat split; try done.
  all: try (intros k Hk; apply lookup_insert_ne; congruence).
  all: try (intros [? | [? | [? ?]]]; done).
  all: try (intros _ _ field [= <-]; by rewrite lookup_insert_eq, ?Hm).
  all: try (intros _ [? | ?] field [= <-]; try done; by rewrite lookup_insert_eq, ?Hm).
Qed.

Lemma toggle_flips_one_field_witness :
  Popup.isUpdating Examples.popup_on = false
  ∧ field_on (Popup.settings Examples.popup_on) "mainEnabled" = true
  ∧ toggled_field "copy" = Some "copyEnabled"
  ∧ fst (Popup.toggle "copy" Examples.popup_on) !! "copyEnabled" = Some (VBool false)
  ∧ fst (Popup.toggle "copy" Examples.popup_on) !! "version" = Some (VStr Popup.VERSION).
Proof.
  assert (field_on (Popup.settings Examples.popup_on) "copyEnabled" = true) as Hc.
  { apply field_on_bool. unfold Examples.popup_on, Popup.settings.
    rewrite settings_record_lookup. reflexivity. }
  assert (field_on (Popup.settings Examples.popup_on) "mainEnabled" = true) as Hm.
  { apply field_on_bool. unfold Examples.popup_on, Popup.settings.
    rewrite settings_record_lookup. reflexivity. }
  destruct (toggle_flips_one_field "copy" Examples.popup_on) as (_ & _ & Hframe & _ & Hflip).
  split; [reflexivity|]. split; [exact Hm|]. split; [reflexivity|]. split.
  - rewrite (Hflip eq_refl (or_intror Hm) "copyEnabled" eq_refl), Hc. reflexivity.
  - rewrite (Hframe "version") by done.
    unfold Examples.popup_on, Popup.settings. rewrite settings_record_lookup. reflexivity.
Defined.

Example toggle_main_off :
  fst (Popup.toggle "main" Examples.popup_on)
  = settings_record false true true true Popup.VERSION.
Proof. unfold Popup.toggle, Popup.not_field; simpl. apply set_main. Qed.
